(** * Route-module analysis and stripping: [vite/define-route.ts]

    A shallow embedding of [packages/react-router-dev/vite/define-route.ts].

    The file under study works on Babel syntax trees.  The trees are modelled
    by the inductive types of module [Ast]: a module is a list of top-level
    statements, expressions cover identifiers, literals, arrays, object
    literals, calls, member accesses and arrow functions.  A [NodePath] is the
    list of steps that leads from the program to a node, which is also what a
    code-frame error is located at.

    Babel's parser and code generator are external to the file under study;
    they appear as the variables [parse] and [generate] of Section [Transform].
    Babel's traversal and scope lookup, and the passes of
    [babel-dead-code-elimination], are modelled on the subset of module [Ast]
    (modules [Traverse], [Scope] and [Dce]). *)

From Stdlib Require Import String List Bool Arith Lia.
Import ListNotations.
Open Scope string_scope.
Open Scope list_scope.

Set Implicit Arguments.
Set Warnings "-register-all".

(* ------------------------------------------------------------------------- *)
(** ** Results of fallible code *)

Module Result.

(** A function that may [throw] returns [Ok v] or [Err e]. *)
Inductive result (E A : Type) : Type :=
| Ok (v : A)
| Err (e : E).

Arguments Ok {E A} v.
Arguments Err {E A} e.

Definition bind {E A B} (r : result E A) (k : A -> result E B) : result E B :=
  match r with
  | Ok v => k v
  | Err e => Err e
  end.

Definition is_ok {E A} (r : result E A) : bool :=
  match r with Ok _ => true | Err _ => false end.

End Result.
Import Result.

Notation "x <- r ;; k" := (bind r (fun x => k))
  (at level 61, r at next level, right associativity).

(* ------------------------------------------------------------------------- *)
(** ** Syntax trees *)

Module Ast.

(** The node types the analysis tests with [t.isX]. *)
Inductive nodeType : Type :=
| TProgram
| TImportDeclaration
| TImportSpecifier
| TImportDefaultSpecifier
| TImportNamespaceSpecifier
| TVariableDeclaration
| TVariableDeclarator
| TFunctionDeclaration
| TBlockStatement
| TReturnStatement
| TExportDefaultDeclaration
| TExpressionStatement
| TIdentifier
| TStringLiteral
| TNumericLiteral
| TArrayExpression
| TObjectExpression
| TObjectProperty
| TObjectMethod
| TSpreadElement
| TCallExpression
| TMemberExpression
| TArrowFunctionExpression.

Definition nodeType_eqb (a b : nodeType) : bool :=
  match a, b with
  | TProgram, TProgram
  | TImportDeclaration, TImportDeclaration
  | TImportSpecifier, TImportSpecifier
  | TImportDefaultSpecifier, TImportDefaultSpecifier
  | TImportNamespaceSpecifier, TImportNamespaceSpecifier
  | TVariableDeclaration, TVariableDeclaration
  | TVariableDeclarator, TVariableDeclarator
  | TFunctionDeclaration, TFunctionDeclaration
  | TBlockStatement, TBlockStatement
  | TReturnStatement, TReturnStatement
  | TExportDefaultDeclaration, TExportDefaultDeclaration
  | TExpressionStatement, TExpressionStatement
  | TIdentifier, TIdentifier
  | TStringLiteral, TStringLiteral
  | TNumericLiteral, TNumericLiteral
  | TArrayExpression, TArrayExpression
  | TObjectExpression, TObjectExpression
  | TObjectProperty, TObjectProperty
  | TObjectMethod, TObjectMethod
  | TSpreadElement, TSpreadElement
  | TCallExpression, TCallExpression
  | TMemberExpression, TMemberExpression
  | TArrowFunctionExpression, TArrowFunctionExpression => true
  | _, _ => false
  end.

(** Members of an object literal, over the type [E] of expressions. *)
Inductive property (E : Type) : Type :=
| ObjectProperty (key : E) (computed : bool) (value : E)
| ObjectMethod (key : E) (computed : bool) (params : list string) (body : E)
| SpreadElement (argument : E).

Arguments ObjectProperty {E} key computed value.
Arguments ObjectMethod {E} key computed params body.
Arguments SpreadElement {E} argument.

(** Expressions.  An array element is [None] for a hole ([[,]]).  A member
    access [o.p] is not computed; its property is an [Identifier] node.  An
    arrow function has identifier parameters and an expression body. *)
Inductive expr : Type :=
| Identifier (name : string)
| StringLiteral (value : string)
| NumericLiteral (value : nat)
| ArrayExpression (elements : list (option expr))
| ObjectExpression (properties : list (property expr))
| CallExpression (callee : expr) (arguments : list expr)
| MemberExpression (object : expr) (property : string)
| ArrowFunctionExpression (params : list string) (body : expr).

(** The [imported] name of an import specifier: [{ a }] or [{ "a" as b }]. *)
Inductive moduleExportName : Type :=
| ImportedIdentifier (name : string)
| ImportedStringLiteral (value : string).

Inductive specifier : Type :=
| ImportSpecifier (imported : moduleExportName) (local : string)
| ImportDefaultSpecifier (local : string)
| ImportNamespaceSpecifier (local : string).

(** Top-level statements.  [VariableDeclaration id init] is
    [const id = init;] (one declarator); [FunctionDeclaration id ps body] is
    [function id(ps) { return body; }]. *)
Inductive statement : Type :=
| ImportDeclaration (specifiers : list specifier) (source : string)
| VariableDeclaration (id : string) (init : expr)
| FunctionDeclaration (id : string) (params : list string) (body : expr)
| ExportDefaultDeclaration (declaration : expr)
| ExpressionStatement (expression : expr).

(** [ParseResult<File>]: the body of the program. *)
Definition File : Type := list statement.

Definition typeOf (e : expr) : nodeType :=
  match e with
  | Identifier _ => TIdentifier
  | StringLiteral _ => TStringLiteral
  | NumericLiteral _ => TNumericLiteral
  | ArrayExpression _ => TArrayExpression
  | ObjectExpression _ => TObjectExpression
  | CallExpression _ _ => TCallExpression
  | MemberExpression _ _ => TMemberExpression
  | ArrowFunctionExpression _ _ => TArrowFunctionExpression
  end.

Definition typeOfProperty {E} (p : property E) : nodeType :=
  match p with
  | ObjectProperty _ _ _ => TObjectProperty
  | ObjectMethod _ _ _ _ => TObjectMethod
  | SpreadElement _ => TSpreadElement
  end.

Definition typeOfStatement (s : statement) : nodeType :=
  match s with
  | ImportDeclaration _ _ => TImportDeclaration
  | VariableDeclaration _ _ => TVariableDeclaration
  | FunctionDeclaration _ _ _ => TFunctionDeclaration
  | ExportDefaultDeclaration _ => TExportDefaultDeclaration
  | ExpressionStatement _ => TExpressionStatement
  end.

(** One step of a [NodePath]: the key (and index) under the parent node. *)
Inductive step : Type :=
| K_body (i : nat)
| K_specifiers (i : nat)
| K_imported
| K_local
| K_id
| K_init
| K_params (i : nat)
| K_fbody
| K_declaration
| K_expression
| K_callee
| K_arguments (i : nat)
| K_properties (i : nat)
| K_key
| K_value
| K_elements (i : nat)
| K_object
| K_property
| K_argument.

(** A path, from the program down to the node. *)
Definition NodePath : Type := list step.

(** What [path.buildCodeFrameError(message)] builds. *)
Record CodeFrameError : Type := mkError {
  message : string;
  loc : NodePath
}.

End Ast.
Import Ast.

(* ------------------------------------------------------------------------- *)
(** ** Scopes and bindings *)

Module Scope.

(** [binding.path.node]: the node that declares the binding. *)
Inductive bindingNode : Type :=
| NImportSpecifier (imported : moduleExportName)
| NImportDefaultSpecifier
| NImportNamespaceSpecifier
| NVariableDeclarator
| NFunctionDeclaration
| NParam.

(** [binding.path.parent]: an import declaration, with its source, or a node
    of another type. *)
Inductive bindingParent : Type :=
| PImportDeclaration (source : string)
| POther (ty : nodeType).

Record Binding : Type := mkBinding {
  binding_node : bindingNode;
  binding_parent : bindingParent
}.

(** The function scopes around a node, innermost first, each with the names
    of its parameters; the program scope lies around all of them. *)
Definition scope : Type := list (list string).

Definition specifierLocal (s : specifier) : string :=
  match s with
  | ImportSpecifier _ l => l
  | ImportDefaultSpecifier l => l
  | ImportNamespaceSpecifier l => l
  end.

Definition specifierBinding (source : string) (s : specifier) : string * Binding :=
  match s with
  | ImportSpecifier i l =>
      (l, mkBinding (NImportSpecifier i) (PImportDeclaration source))
  | ImportDefaultSpecifier l =>
      (l, mkBinding NImportDefaultSpecifier (PImportDeclaration source))
  | ImportNamespaceSpecifier l =>
      (l, mkBinding NImportNamespaceSpecifier (PImportDeclaration source))
  end.

(** The bindings a statement registers in the program scope. *)
Definition statementBindings (s : statement) : list (string * Binding) :=
  match s with
  | ImportDeclaration specs source => map (specifierBinding source) specs
  | VariableDeclaration x _ =>
      [(x, mkBinding NVariableDeclarator (POther TVariableDeclaration))]
  | FunctionDeclaration f _ _ =>
      [(f, mkBinding NFunctionDeclaration (POther TProgram))]
  | ExportDefaultDeclaration _ => []
  | ExpressionStatement _ => []
  end.

Definition programBindings (ast : File) : list (string * Binding) :=
  flat_map statementBindings ast.

Definition lookup {A} (name : string) (l : list (string * A)) : option A :=
  match find (fun kv => String.eqb (fst kv) name) l with
  | Some kv => Some (snd kv)
  | None => None
  end.

Definition mem (name : string) (l : list string) : bool :=
  existsb (String.eqb name) l.

(** [scope.getBinding(name)]: the nearest declaration of [name], walking the
    function scopes outwards and ending in the program scope. *)
Fixpoint getBinding (ast : File) (sc : scope) (name : string) : option Binding :=
  match sc with
  | [] => lookup name (programBindings ast)
  | frame :: outer =>
      if mem name frame
      then Some (mkBinding NParam (POther TArrowFunctionExpression))
      else getBinding ast outer name
  end.

(** The parser rejects a module that declares a name twice in the program
    scope. *)
Definition uniqueBindings (ast : File) : Prop :=
  NoDup (map fst (programBindings ast)).

End Scope.
Import Scope.

(* ------------------------------------------------------------------------- *)
(** ** Traversal: the identifiers of a module *)

Module Traverse.

Section FlatMapi.
Context {A B : Type} (f : nat -> A -> list B).

(** [flat_map] with the index of each element. *)
Fixpoint flat_mapi_from (i : nat) (l : list A) : list B :=
  match l with
  | [] => []
  | x :: t => f i x ++ flat_mapi_from (S i) t
  end.

Definition flat_mapi (l : list A) : list B := flat_mapi_from 0 l.
End FlatMapi.

(** What the [Identifier] visitor sees of a path: the name, the path itself,
    the types of [path.parent] and of [path.parentPath.parent], the scope of
    the path, and whether the identifier refers to a binding (rather than
    declaring one or naming a property). *)
Record IdentifierPath : Type := mkIdentifierPath {
  ip_name : string;
  ip_path : NodePath;
  ip_parent : nodeType;
  ip_grandparent : nodeType;
  ip_scope : scope;
  ip_reference : bool
}.

Definition paramPaths (sc : scope) (p : NodePath) (par gpar : nodeType)
    (ps : list string) : list IdentifierPath :=
  flat_mapi (fun i x => [mkIdentifierPath x (p ++ [K_params i]) par gpar sc false]) ps.

(** The identifiers below an expression at path [p], whose parent has type
    [par] and whose grandparent has type [gpar], in the order the traversal
    enters them. *)
Fixpoint identifiersOfExpr (sc : scope) (p : NodePath) (par gpar : nodeType)
    (e : expr) : list IdentifierPath :=
  match e with
  | Identifier x => [mkIdentifierPath x p par gpar sc true]
  | StringLiteral _ => []
  | NumericLiteral _ => []
  | ArrayExpression els =>
      flat_mapi (fun i el =>
        match el with
        | Some a => identifiersOfExpr sc (p ++ [K_elements i]) TArrayExpression par a
        | None => []
        end) els
  | ObjectExpression props =>
      flat_mapi (fun i prop =>
        let q := p ++ [K_properties i] in
        match prop with
        | ObjectProperty k computed v =>
            match k, computed with
            | Identifier x, false =>
                [mkIdentifierPath x (q ++ [K_key]) TObjectProperty TObjectExpression sc false]
            | _, _ =>
                identifiersOfExpr sc (q ++ [K_key]) TObjectProperty TObjectExpression k
            end
            ++ identifiersOfExpr sc (q ++ [K_value]) TObjectProperty TObjectExpression v
        | ObjectMethod k computed ps b =>
            match k, computed with
            | Identifier x, false =>
                [mkIdentifierPath x (q ++ [K_key]) TObjectMethod TObjectExpression sc false]
            | _, _ =>
                identifiersOfExpr sc (q ++ [K_key]) TObjectMethod TObjectExpression k
            end
            ++ paramPaths (ps :: sc) q TObjectMethod TObjectExpression ps
            ++ identifiersOfExpr (ps :: sc) (q ++ [K_fbody]) TReturnStatement TBlockStatement b
        | SpreadElement a =>
            identifiersOfExpr sc (q ++ [K_argument]) TSpreadElement TObjectExpression a
        end) props
  | CallExpression f args =>
      identifiersOfExpr sc (p ++ [K_callee]) TCallExpression par f
      ++ flat_mapi (fun i a =>
           identifiersOfExpr sc (p ++ [K_arguments i]) TCallExpression par a) args
  | MemberExpression o x =>
      identifiersOfExpr sc (p ++ [K_object]) TMemberExpression par o
      ++ [mkIdentifierPath x (p ++ [K_property]) TMemberExpression par sc false]
  | ArrowFunctionExpression ps b =>
      paramPaths (ps :: sc) p TArrowFunctionExpression par ps
      ++ identifiersOfExpr (ps :: sc) (p ++ [K_fbody]) TArrowFunctionExpression par b
  end.

Definition identifiersOfSpecifier (p : NodePath) (s : specifier) : list IdentifierPath :=
  match s with
  | ImportSpecifier i l =>
      mkIdentifierPath l (p ++ [K_local]) TImportSpecifier TImportDeclaration [] false
      :: match i with
         | ImportedIdentifier x =>
             [mkIdentifierPath x (p ++ [K_imported]) TImportSpecifier TImportDeclaration [] false]
         | ImportedStringLiteral _ => []
         end
  | ImportDefaultSpecifier l =>
      [mkIdentifierPath l (p ++ [K_local]) TImportDefaultSpecifier TImportDeclaration [] false]
  | ImportNamespaceSpecifier l =>
      [mkIdentifierPath l (p ++ [K_local]) TImportNamespaceSpecifier TImportDeclaration [] false]
  end.

Definition identifiersOfStatement (i : nat) (s : statement) : list IdentifierPath :=
  let p := [K_body i] in
  match s with
  | ImportDeclaration specs _ =>
      flat_mapi (fun j sp => identifiersOfSpecifier (p ++ [K_specifiers j]) sp) specs
  | VariableDeclaration x e =>
      mkIdentifierPath x (p ++ [K_id]) TVariableDeclarator TVariableDeclaration [] false
      :: identifiersOfExpr [] (p ++ [K_init]) TVariableDeclarator TVariableDeclaration e
  | FunctionDeclaration f ps b =>
      mkIdentifierPath f (p ++ [K_id]) TFunctionDeclaration TProgram [ps] false
      :: paramPaths [ps] p TFunctionDeclaration TProgram ps
      ++ identifiersOfExpr [ps] (p ++ [K_fbody]) TReturnStatement TBlockStatement b
  | ExportDefaultDeclaration e =>
      identifiersOfExpr [] (p ++ [K_declaration]) TExportDefaultDeclaration TProgram e
  | ExpressionStatement e =>
      identifiersOfExpr [] (p ++ [K_expression]) TExpressionStatement TProgram e
  end.

(** Every [Identifier] path of the module, in traversal order. *)
Definition identifiers (ast : File) : list IdentifierPath :=
  flat_mapi identifiersOfStatement ast.

(** [traverse(ast, { Identifier(path) { visit(path) } })] where the visitor
    either returns or throws: the first throw ends the traversal. *)
Fixpoint forEachIdentifier {E} (visit : IdentifierPath -> result E unit)
    (l : list IdentifierPath) : result E unit :=
  match l with
  | [] => Ok tt
  | ip :: rest => _ <- visit ip ;; forEachIdentifier visit rest
  end.

End Traverse.
Import Traverse.

(* ------------------------------------------------------------------------- *)
(** ** The analysis of [define-route.ts] *)

Module DefineRoute.

(** *** The [Analysis] object

    [analysis] starts as [{}] and is written with [analysis[key] = path].
    Its own properties keep the order of their first insertion; writing a
    key again replaces its value in place.  Writing the key [__proto__] of
    an ordinary object creates no own property: it sets the prototype, here
    to the path written.

    This record follows the object as long as no key is [__proto__].  Once
    [__proto__] has been written the prototype is a [NodePath], and a later
    write to the name of one of its accessors runs that accessor instead of
    storing an own property; the record has no part for that.  The statements
    about what an analysis contains are therefore made for object literals
    without a [__proto__] key. *)
Record Analysis : Type := mkAnalysis {
  own : list (string * NodePath);
  proto : option NodePath
}.

Definition emptyAnalysis : Analysis := mkAnalysis [] None.

Fixpoint setOwn (k : string) (v : NodePath) (l : list (string * NodePath))
    : list (string * NodePath) :=
  match l with
  | [] => [(k, v)]
  | (k', v') :: rest =>
      if String.eqb k' k then (k', v) :: rest else (k', v') :: setOwn k v rest
  end.

(** [analysis[key] = path] *)
Definition analysisSet (a : Analysis) (k : string) (v : NodePath) : Analysis :=
  if String.eqb k "__proto__"
  then mkAnalysis (own a) (Some v)
  else mkAnalysis (setOwn k v (own a)) (proto a).

(** [analysis[key]] for a key that is an own property of the analysis, and
    for [__proto__]; what the object inherits from its prototype under other
    names is not part of the record. *)
Definition analysisGet (a : Analysis) (k : string) : option NodePath :=
  if String.eqb k "__proto__" then proto a else lookup k (own a).

(** [Object.keys(analysis)] and [Object.entries(analysis)]. *)
Definition keysOf (a : Analysis) : list string := map fst (own a).
Definition entriesOf (a : Analysis) : list (string * NodePath) := own a.

(** *** Messages of the errors thrown *)

Definition msgDefaultExport : string :=
  "Default export of a route module must be either a literal object or a call to `defineRoute`".
Definition msgOneArgument : string :=
  "`defineRoute` must take exactly one argument".
Definition msgArgumentObject : string :=
  "`defineRoute` argument must be a literal object".
Definition msgSpread : string :=
  "Properties cannot be spread into route".
Definition msgComputed : string :=
  "Route cannot have computed keys".
Definition msgParamsArray : string :=
  "Route params must be a literal array".
Definition msgParamString : string :=
  "Route param must be a literal string".
Definition msgAfterExportDefault : string :=
  "`defineRoute` must be a function call immediately after `export default`".

(** *** [isCanonicallyImportedAs] and [isDefineRoute] *)

Definition isCanonicallyImportedAs (binding : Binding)
    (sourceName importedName : string) : bool :=
  match binding_parent binding with
  | PImportDeclaration source =>
      if negb (String.eqb source sourceName) then false
      else
        match binding_node binding with
        | NImportSpecifier imported =>
            match imported with
            | ImportedIdentifier name =>
                if negb (String.eqb name importedName) then false else true
            | ImportedStringLiteral _ => false
            end
        | _ => false
        end
  | POther _ => false
  end.

(** [isDefineRoute(path)], for a path with node [node] and scope [sc]. *)
Definition isDefineRoute (ast : File) (sc : scope) (node : expr) : bool :=
  match node with
  | Identifier name =>
      match getBinding ast sc name with
      | None => false
      | Some binding => isCanonicallyImportedAs binding "react-router" "defineRoute"
      end
  | _ => false
  end.

Definition isDefineRoutePath (ast : File) (ip : IdentifierPath) : bool :=
  isDefineRoute ast (ip_scope ip) (Identifier (ip_name ip)).

(** *** [assertDefineRouteOnlyAfterExportDefault] and [assertNotImported] *)

Definition visitOnlyAfterExportDefault (ast : File) (ip : IdentifierPath)
    : result CodeFrameError unit :=
  if negb (isDefineRoutePath ast ip) then Ok tt
  else if nodeType_eqb (ip_parent ip) TImportSpecifier then Ok tt
  else if negb (nodeType_eqb (ip_parent ip) TCallExpression)
  then Err (mkError msgAfterExportDefault (ip_path ip))
  else if negb (nodeType_eqb (ip_grandparent ip) TExportDefaultDeclaration)
  then Err (mkError msgAfterExportDefault (ip_path ip))
  else Ok tt.

Definition assertDefineRouteOnlyAfterExportDefault (ast : File)
    : result CodeFrameError unit :=
  forEachIdentifier (visitOnlyAfterExportDefault ast) (identifiers ast).



(** *** [analyzeRoute] *)

Definition isStringLiteral (el : option expr) : bool :=
  match el with
  | Some (StringLiteral _) => true
  | _ => false
  end.

(** The loop over [paramsPath.node.value.elements.entries()]. *)
Fixpoint checkParamElements (paramsPath : NodePath) (i : nat)
    (els : list (option expr)) : result CodeFrameError unit :=
  match els with
  | [] => Ok tt
  | element :: rest =>
      if negb (isStringLiteral element)
      then Err (mkError msgParamString (paramsPath ++ [K_value; K_elements i]))
      else checkParamElements paramsPath (S i) rest
  end.

(** The body of [if (key === "params")]. *)
Definition checkParams (paramsPath : NodePath) (prop : property expr)
    : result CodeFrameError unit :=
  match prop with
  | ObjectMethod _ _ _ _ => Err (mkError msgParamsArray paramsPath)
  | ObjectProperty _ _ v =>
      match v with
      | ArrayExpression els => checkParamElements paramsPath 0 els
      | _ => Err (mkError msgParamsArray paramsPath)
      end
  | SpreadElement _ => Err (mkError msgParamsArray paramsPath)
  end.

(** One turn of the loop of [analyzeRoute]: the checks on the property at
    index [i], giving the key under which its path is recorded. *)
Definition checkProperty (path : NodePath) (i : nat) (prop : property expr)
    : result CodeFrameError string :=
  let propertyPath := path ++ [K_properties i] in
  match prop with
  | SpreadElement _ => Err (mkError msgSpread propertyPath)
  | ObjectProperty k computed _ | ObjectMethod k computed _ _ =>
      match computed, k with
      | false, Identifier key =>
          _ <- (if String.eqb key "params"
                then checkParams propertyPath prop
                else Ok tt) ;;
          Ok key
      | _, _ => Err (mkError msgComputed propertyPath)
      end
  end.

Fixpoint analyzeRouteFrom (path : NodePath) (i : nat)
    (props : list (property expr)) (analysis : Analysis)
    : result CodeFrameError Analysis :=
  match props with
  | [] => Ok analysis
  | prop :: rest =>
      key <- checkProperty path i prop ;;
      analyzeRouteFrom path (S i) rest
        (analysisSet analysis key (path ++ [K_properties i]))
  end.

(** [analyzeRoute(path)], for the object literal at [path] with the
    properties [props]. *)
Definition analyzeRoute (path : NodePath) (props : list (property expr))
    : result CodeFrameError Analysis :=
  analyzeRouteFrom path 0 props emptyAnalysis.

(** *** [analyzeRouteExport] *)

(** [analyzeRouteExport(path)], for the default export at [path] whose
    declaration is [route]. *)
Definition analyzeRouteExport (ast : File) (path : NodePath) (route : expr)
    : result CodeFrameError Analysis :=
  match route with
  | ObjectExpression props => analyzeRoute (path ++ [K_declaration]) props
  | CallExpression f args =>
      let routePath := path ++ [K_declaration] in
      if negb (isDefineRoute ast [] f)
      then Err (mkError msgDefaultExport routePath)
      else if negb (Nat.eqb (length args) 1)
      then Err (mkError msgOneArgument routePath)
      else
        let argPath := routePath ++ [K_arguments 0] in
        match args with
        | ObjectExpression props :: _ => analyzeRoute argPath props
        | _ => Err (mkError msgArgumentObject argPath)
        end
  | _ => Err (mkError msgDefaultExport (path ++ [K_declaration]))
  end.

End DefineRoute.
Import DefineRoute.

(* ------------------------------------------------------------------------- *)
(** ** Dead-code elimination *)

Module Dce.

(** Does the identifier refer to the program-scope binding of its name? *)
Definition refersToProgram (ip : IdentifierPath) : bool :=
  ip_reference ip && negb (existsb (mem (ip_name ip)) (ip_scope ip)).

(** [binding.referenced] for the program-scope binding called [name]. *)
Definition referenced (ast : File) (name : string) : bool :=
  existsb (fun ip => refersToProgram ip && String.eqb (ip_name ip) name)
          (identifiers ast).

(** Modelled from the spec: [findReferencedIdentifiers] of the package
    [babel-dead-code-elimination], which is not part of the file under
    study.  Section 3 (Reference Set): the identifiers referenced anywhere
    in the original tree, computed once, before any removal.  Here: the
    names of the declared bindings that are referenced. *)
Definition findReferencedIdentifiers (ast : File) : list string :=
  filter (referenced ast) (map fst (programBindings ast)).

Definition shouldBeRemoved (ast : File) (candidates : list string)
    (name : string) : bool :=
  mem name candidates && negb (referenced ast name).

(** One sweep over the tree [ast]: the references are those of the tree at
    the start of the sweep.  An import declaration that loses its last
    specifier goes as well. *)
Definition sweepStatement (ast : File) (candidates : list string)
    (s : statement) : list statement :=
  match s with
  | ImportDeclaration specs source =>
      let kept :=
        filter (fun sp => negb (shouldBeRemoved ast candidates (specifierLocal sp)))
               specs in
      match kept with
      | [] => match specs with
              | [] => [s]
              | _ :: _ => []
              end
      | _ :: _ => [ImportDeclaration kept source]
      end
  | VariableDeclaration x _ =>
      if shouldBeRemoved ast candidates x then [] else [s]
  | FunctionDeclaration f _ _ =>
      if shouldBeRemoved ast candidates f then [] else [s]
  | _ => [s]
  end.

Definition sweep (ast : File) (candidates : list string) : File :=
  flat_map (sweepStatement ast candidates) ast.

(** The number of bindings the program scope declares. *)
Definition bindingCount (ast : File) : nat := length (programBindings ast).

(** Sweeps are repeated until one removes nothing, for at most [fuel]
    sweeps. *)
Fixpoint eliminate (fuel : nat) (ast : File) (candidates : list string) : File :=
  match fuel with
  | O => ast
  | S fuel' =>
      let ast' := sweep ast candidates in
      if Nat.eqb (bindingCount ast') (bindingCount ast)
      then ast'
      else eliminate fuel' ast' candidates
  end.

(** Modelled from the spec: [deadCodeElimination] of the package
    [babel-dead-code-elimination], which is not part of the file under
    study.  Section 4.6 and the design notes: a declaration (function,
    variable, import specifier) left without a reference is deleted, and
    "delete unreferenced declarations" is repeated until no change; a
    declaration with a surviving reference is kept.  Only the declarations
    of the reference set taken before the removal are candidates.  Every
    sweep but the last removes a binding, so one sweep more than there are
    bindings is enough. *)
Definition deadCodeElimination (ast : File) (candidates : list string) : File :=
  eliminate (S (bindingCount ast)) ast candidates.

End Dce.
Import Dce.

(* ------------------------------------------------------------------------- *)
(** ** [transform] and [parseFields] *)

Module Strip.

Definition step_eqb (a b : step) : bool :=
  match a, b with
  | K_body i, K_body j
  | K_specifiers i, K_specifiers j
  | K_params i, K_params j
  | K_arguments i, K_arguments j
  | K_properties i, K_properties j
  | K_elements i, K_elements j => Nat.eqb i j
  | K_imported, K_imported
  | K_local, K_local
  | K_id, K_id
  | K_init, K_init
  | K_fbody, K_fbody
  | K_declaration, K_declaration
  | K_expression, K_expression
  | K_callee, K_callee
  | K_key, K_key
  | K_value, K_value
  | K_object, K_object
  | K_property, K_property
  | K_argument, K_argument => true
  | _, _ => false
  end.

Fixpoint path_eqb (p q : NodePath) : bool :=
  match p, q with
  | [], [] => true
  | a :: p', b :: q' => step_eqb a b && path_eqb p' q'
  | _, _ => false
  end.

Definition isMarked (marked : list NodePath) (p : NodePath) : bool :=
  existsb (path_eqb p) marked.

Fixpoint removePropertiesFrom (marked : list NodePath) (objectPath : NodePath)
    (i : nat) (props : list (property expr)) : list (property expr) :=
  match props with
  | [] => []
  | prop :: rest =>
      if isMarked marked (objectPath ++ [K_properties i])
      then removePropertiesFrom marked objectPath (S i) rest
      else prop :: removePropertiesFrom marked objectPath (S i) rest
  end.

(** [markedForRemoval.forEach((path) => path.remove())]: the marked paths
    are properties of the exported object literal, each is taken out of the
    list of properties it lies in. *)
Definition removeMarkedIn (marked : list NodePath) (i : nat) (s : statement)
    : statement :=
  let path := [K_body i; K_declaration] in
  match s with
  | ExportDefaultDeclaration (ObjectExpression props) =>
      ExportDefaultDeclaration
        (ObjectExpression (removePropertiesFrom marked path 0 props))
  | ExportDefaultDeclaration (CallExpression f (ObjectExpression props :: rest)) =>
      ExportDefaultDeclaration
        (CallExpression f
           (ObjectExpression
              (removePropertiesFrom marked (path ++ [K_arguments 0]) 0 props)
            :: rest))
  | _ => s
  end.

Fixpoint removeMarkedFrom (marked : list NodePath) (i : nat) (ast : File) : File :=
  match ast with
  | [] => []
  | s :: rest => removeMarkedIn marked i s :: removeMarkedFrom marked (S i) rest
  end.

Definition removeMarked (marked : list NodePath) (ast : File) : File :=
  removeMarkedFrom marked 0 ast.

Definition serverOnly (k : string) : bool :=
  mem k ["headers"; "serverLoader"; "serverAction"].

(** The loop over [Object.entries(analysis)] in [transform]. *)
Definition markedOf (analysis : Analysis) : list NodePath :=
  map snd (filter (fun kv => serverOnly (fst kv)) (entriesOf analysis)).

(** The traversal of [transform] with its [ExportDefaultDeclaration]
    visitor, over the statements from index [i] on. *)
Fixpoint markForRemovalFrom (ast : File) (i : nat) (stmts : list statement)
    (markedForRemoval : list NodePath) : result CodeFrameError (list NodePath) :=
  match stmts with
  | [] => Ok markedForRemoval
  | ExportDefaultDeclaration route :: rest =>
      analysis <- analyzeRouteExport ast [K_body i] route ;;
      markForRemovalFrom ast (S i) rest (markedForRemoval ++ markedOf analysis)
  | _ :: rest => markForRemovalFrom ast (S i) rest markedForRemoval
  end.

Definition markForRemoval (ast : File) : result CodeFrameError (list NodePath) :=
  markForRemovalFrom ast 0 ast [].

(** The traversal of [parseFields]. *)
Fixpoint fieldsFrom (ast : File) (i : nat) (stmts : list statement)
    (fields : list string) : result CodeFrameError (list string) :=
  match stmts with
  | [] => Ok fields
  | ExportDefaultDeclaration route :: rest =>
      analysis <- analyzeRouteExport ast [K_body i] route ;;
      fieldsFrom ast (S i) rest (keysOf analysis)
  | _ :: rest => fieldsFrom ast (S i) rest fields
  end.

(** [parseFields], after [parse]. *)
Definition parseFieldsAst (ast : File) : result CodeFrameError (list string) :=
  _ <- assertDefineRouteOnlyAfterExportDefault ast ;;
  fieldsFrom ast 0 ast [].

(** [transform] between [parse] and [generate]. *)
Definition transformAst (ast : File) : result CodeFrameError File :=
  let refs := findReferencedIdentifiers ast in
  _ <- assertDefineRouteOnlyAfterExportDefault ast ;;
  markedForRemoval <- markForRemoval ast ;;
  Ok (deadCodeElimination (removeMarked markedForRemoval ast) refs).

(** What a request throws: the parser's syntax error or a code-frame
    error. *)
Inductive thrown : Type :=
| SyntaxError
| CodeFrame (e : CodeFrameError).

Definition liftFrame {A} (r : result CodeFrameError A) : result thrown A :=
  match r with
  | Ok v => Ok v
  | Err e => Err (CodeFrame e)
  end.

Section Transform.

(** Babel's parser and generator.  [generate(ast, opts, code)] returns the
    generated text and its source map. *)
Variable SourceMap : Type.
Variable parse : string -> option File.
Variable generate : File -> string -> string -> string * SourceMap.

Definition parseOrThrow (code : string) : result thrown File :=
  match parse code with
  | Some ast => Ok ast
  | None => Err SyntaxError
  end.

(** [options.ssr]: absent, or a boolean. *)
Record Options : Type := mkOptions { ssr : option bool }.

(** [transform] returns the string [code] itself, or the generator's
    result. *)
Inductive Output : Type :=
| Source (code : string)
| Generated (result : string * SourceMap).

Definition outputText (o : Output) : string :=
  match o with
  | Source code => code
  | Generated r => fst r
  end.

Definition transform (code : string) (id : string) (options : Options)
    : result thrown Output :=
  match ssr options with
  | Some true => Ok (Source code)
  | _ =>
      ast <- parseOrThrow code ;;
      ast' <- liftFrame (transformAst ast) ;;
      Ok (Generated (generate ast' id code))
  end.

Definition parseFields (code : string) : result thrown (list string) :=
  ast <- parseOrThrow code ;;
  liftFrame (parseFieldsAst ast).


End Transform.

End Strip.
Import Strip.

(* ------------------------------------------------------------------------- *)
(** ** Vocabulary of the specification *)

Module Spec.

(** The enumerated field names of section 3. *)
Definition fixedFields : list string :=
  ["params"; "links"; "HydrateFallback"; "serverLoader"; "clientLoader";
   "serverAction"; "clientAction"; "meta"; "Component"; "ErrorBoundary";
   "handle"].

(** The errors of the schema matcher ([SchemaError]). *)
Definition schemaMessages : list string :=
  [msgDefaultExport; msgOneArgument; msgArgumentObject; msgSpread;
   msgComputed; msgParamsArray; msgParamString].

Definition SchemaError (e : CodeFrameError) : Prop :=
  In (message e) schemaMessages.

(** The error of the misuse guard ([MisuseError]) and of
    [assertNotImported] ([ImportPresenceError]). *)
Definition MisuseError (e : CodeFrameError) : Prop :=
  message e = msgAfterExportDefault.


(** The literal name of a property: its key, when the key is an identifier
    and is not computed. *)
Definition keyName (p : property expr) : option string :=
  match p with
  | ObjectProperty (Identifier k) false _ => Some k
  | ObjectMethod (Identifier k) false _ _ => Some k
  | _ => None
  end.

Definition keyNames (props : list (property expr)) : list string :=
  flat_map (fun p => match keyName p with Some k => [k] | None => [] end) props.

(** A property named [params]. *)
Definition namedParams (p : property expr) : bool :=
  match keyName p with
  | Some k => String.eqb k "params"
  | None => false
  end.

(** Its value is a literal array of literal strings. *)
Definition literalStringArray (p : property expr) : bool :=
  match p with
  | ObjectProperty _ _ (ArrayExpression els) => forallb isStringLiteral els
  | _ => false
  end.

(** Its value is a literal array. *)
Definition literalArray (p : property expr) : bool :=
  match p with
  | ObjectProperty _ _ (ArrayExpression _) => true
  | _ => false
  end.

Definition elementsOf (p : property expr) : list (option expr) :=
  match p with
  | ObjectProperty _ _ (ArrayExpression els) => els
  | _ => []
  end.

(** A list without its repetitions, every name at its first occurrence. *)
Fixpoint firstOccurrencesFrom (seen : list string) (l : list string) : list string :=
  match l with
  | [] => []
  | x :: t =>
      if mem x seen
      then firstOccurrencesFrom seen t
      else x :: firstOccurrencesFrom (x :: seen) t
  end.

Definition firstOccurrences (l : list string) : list string :=
  firstOccurrencesFrom [] l.

Definition notProto (k : string) : bool := negb (String.eqb k "__proto__").

(** The declaration of the last default export among the statements. *)
Fixpoint lastExport (stmts : list statement) : option expr :=
  match stmts with
  | [] => None
  | s :: rest =>
      match lastExport rest with
      | Some e => Some e
      | None =>
          match s with
          | ExportDefaultDeclaration e => Some e
          | _ => None
          end
      end
  end.

(** The properties of a route: of the object literal, or of the object
    literal that is the argument of the call. *)
Definition routeProperties (route : expr) : list (property expr) :=
  match route with
  | ObjectExpression props => props
  | CallExpression _ (ObjectExpression props :: _) => props
  | _ => []
  end.

(** The properties of the module's route, none without default export. *)
Definition exportProperties (ast : File) : list (property expr) :=
  match lastExport ast with
  | Some route => routeProperties route
  | None => []
  end.

Definition isExportDefault (s : statement) : bool :=
  match s with
  | ExportDefaultDeclaration _ => true
  | _ => false
  end.

(** The module imports the factory by name: some import declaration from
    [react-router] has a specifier whose imported name is the identifier
    [defineRoute], as in [import { defineRoute as l } from "react-router"]. *)
Definition importsDefineRoute (ast : File) : Prop :=
  exists specs l,
    In (ImportDeclaration specs "react-router") ast /\
    In (ImportSpecifier (ImportedIdentifier "defineRoute") l) specs.



(** No key of the object literal is [__proto__]. *)
Definition protoFree (props : list (property expr)) : Prop :=
  ~ In "__proto__" (keyNames props).

(** The binding of an import specifier with an identifier as imported name. *)
Definition canonicalBinding (sourceName importedName : string) : Binding :=
  mkBinding (NImportSpecifier (ImportedIdentifier importedName))
            (PImportDeclaration sourceName).

End Spec.
Import Spec.

(* ------------------------------------------------------------------------- *)
(** ** Accepted shapes *)

Module Shape.

(** A property the loop of [analyzeRoute] lets through: its key is a literal
    identifier, and if the key is [params] the value is a literal array of
    literal strings. *)
Definition acceptable (p : property expr) : bool :=
  match keyName p with
  | None => false
  | Some k => if String.eqb k "params" then literalStringArray p else true
  end.

(** A default export that [analyzeRouteExport] lets through: an object literal
    of acceptable properties, or a call of the factory with one argument, an
    object literal of acceptable properties. *)
Definition validRoute (ast : File) (route : expr) : bool :=
  match route with
  | ObjectExpression props => forallb acceptable props
  | CallExpression f [ObjectExpression props] =>
      isDefineRoute ast [] f && forallb acceptable props
  | _ => false
  end.

(** The positions in which the misuse guard lets the factory stand: the name
    of an import specifier, or a child of a call expression that is the
    declaration of a default export. *)
Definition allowedPosition (ip : IdentifierPath) : bool :=
  nodeType_eqb (ip_parent ip) TImportSpecifier
  || (nodeType_eqb (ip_parent ip) TCallExpression
      && nodeType_eqb (ip_grandparent ip) TExportDefaultDeclaration).

(** The server-only key of a property, if it has one. *)
Definition serverOnlyProperty (p : property expr) : bool :=
  match keyName p with
  | Some k => serverOnly k
  | None => false
  end.

(** The path of the object literal of the route that statement [j] exports. *)
Definition routeObjectPath (j : nat) (route : expr) : NodePath :=
  match route with
  | CallExpression _ _ => [K_body j; K_declaration; K_arguments 0]
  | _ => [K_body j; K_declaration]
  end.

(** What the analysis looks at in an identifier path: everything but where
    the identifier lies. *)
Definition unlocated (ip : IdentifierPath) : IdentifierPath :=
  mkIdentifierPath (ip_name ip) [] (ip_parent ip) (ip_grandparent ip)
    (ip_scope ip) (ip_reference ip).

(** The identifiers of a statement, without their location. *)
Definition unlocatedOfStatement (s : statement) : list IdentifierPath :=
  map unlocated (identifiersOfStatement 0 s).

(** The identifiers of the property at path [q], as the traversal of an
    object literal collects them. *)
Definition identifiersOfProperty (sc : scope) (q : NodePath) (prop : property expr)
    : list IdentifierPath :=
  match prop with
  | ObjectProperty k computed v =>
      match k, computed with
      | Identifier x, false =>
          [mkIdentifierPath x (q ++ [K_key]) TObjectProperty TObjectExpression sc false]
      | _, _ =>
          identifiersOfExpr sc (q ++ [K_key]) TObjectProperty TObjectExpression k
      end
      ++ identifiersOfExpr sc (q ++ [K_value]) TObjectProperty TObjectExpression v
  | ObjectMethod k computed ps b =>
      match k, computed with
      | Identifier x, false =>
          [mkIdentifierPath x (q ++ [K_key]) TObjectMethod TObjectExpression sc false]
      | _, _ =>
          identifiersOfExpr sc (q ++ [K_key]) TObjectMethod TObjectExpression k
      end
      ++ paramPaths (ps :: sc) q TObjectMethod TObjectExpression ps
      ++ identifiersOfExpr (ps :: sc) (q ++ [K_fbody]) TReturnStatement TBlockStatement b
  | SpreadElement a =>
      identifiersOfExpr sc (q ++ [K_argument]) TSpreadElement TObjectExpression a
  end.

End Shape.
Import Shape.

(* ------------------------------------------------------------------------- *)
(** ** Concrete modules *)

Module Examples.

(** [import { defineRoute } from "react-router";] *)
Definition importDefineRoute : statement :=
  ImportDeclaration
    [ImportSpecifier (ImportedIdentifier "defineRoute") "defineRoute"]
    "react-router".

(** [k: v] *)
Definition field (k : string) (v : expr) : property expr :=
  ObjectProperty (Identifier k) false v.

(** [() => n] *)
Definition thunk (n : nat) : expr := ArrowFunctionExpression [] (NumericLiteral n).

(** A parser that knows one text. *)
Definition parseOnly (text : string) (ast : File) (code : string) : option File :=
  if String.eqb code text then Some ast else None.

(** A generator that ignores the tree. *)
Definition generateConst (ast : File) (id code : string) : string * unit :=
  ("", tt).

(** [import defineRoute from "react-router"; export default defineRoute({});] *)
Definition defaultImported : File :=
  [ ImportDeclaration [ImportDefaultSpecifier "defineRoute"] "react-router";
    ExportDefaultDeclaration
      (CallExpression (Identifier "defineRoute") [ObjectExpression []]) ].

(** [const x = 1; x;] *)
Definition noExport : File :=
  [ VariableDeclaration "x" (NumericLiteral 1);
    ExpressionStatement (Identifier "x") ].

(** [{ Component: () => 1, meta: () => 0, Component: () => 2 }] *)
Definition duplicated : list (property expr) :=
  [ field "Component" (thunk 1); field "meta" (thunk 0); field "Component" (thunk 2) ].

(** [{ Component: () => 1, params: ["id", 7] }] *)
Definition badParams : list (property expr) :=
  [ field "Component" (thunk 1);
    field "params" (ArrayExpression [Some (StringLiteral "id"); Some (NumericLiteral 7)]) ].

(** [export default { Component: () => 1, headers: () => 2 };] *)
Definition withHeaders : File :=
  [ ExportDefaultDeclaration
      (ObjectExpression [ field "Component" (thunk 1); field "headers" (thunk 2) ]) ].

Definition withHeadersText : string :=
  "export default { Component: () => 1, headers: () => 2 };".

(** [import { defineRoute } from "react-router";] and nothing else: the
    import is never used. *)
Definition unusedImport : File := [ importDefineRoute ].


(** [import { defineRoute } from "react-router";
     export default wrap(defineRoute);] *)
Definition argumentUse : File :=
  [ importDefineRoute;
    ExportDefaultDeclaration
      (CallExpression (Identifier "wrap") [Identifier "defineRoute"]) ].

(** The identifier [defineRoute] in the argument of that call. *)
Definition argumentUsePath : IdentifierPath :=
  mkIdentifierPath "defineRoute" [K_body 1; K_declaration; K_arguments 0]
    TCallExpression TExportDefaultDeclaration [] true.

(** [export default { serverLoader: () => 1, serverLoader: () => 2 };] *)
Definition duplicateLoader : File :=
  [ ExportDefaultDeclaration
      (ObjectExpression
         [ field "serverLoader" (thunk 1); field "serverLoader" (thunk 2) ]) ].

(** [export default { serverLoader: () => 1 };] *)
Definition oneLoader : File :=
  [ ExportDefaultDeclaration (ObjectExpression [ field "serverLoader" (thunk 1) ]) ].

(** [export default {};] *)
Definition noLoader : File :=
  [ ExportDefaultDeclaration (ObjectExpression []) ].



End Examples.
Import Examples.

(* ------------------------------------------------------------------------- *)
(** ** More concrete modules *)

Module MoreExamples.

(** [{ ...shared, [k]: 1 }] *)
Definition spreadThenComputed : list (property expr) :=
  [ SpreadElement (Identifier "shared");
    ObjectProperty (Identifier "k") true (NumericLiteral 1) ].

(** [import { defineRoute as route } from "react-router";
     export default route({ Component: () => 1 });] *)
Definition aliased : File :=
  [ ImportDeclaration
      [ImportSpecifier (ImportedIdentifier "defineRoute") "route"] "react-router";
    ExportDefaultDeclaration
      (CallExpression (Identifier "route")
         [ObjectExpression [ field "Component" (thunk 1) ]]) ].

(** [import { db } from "./db";
     const label = "x";
     export default { serverLoader: () => db, Component: () => label };] *)
Definition loaderAndComponent : File :=
  [ ImportDeclaration [ImportSpecifier (ImportedIdentifier "db") "db"] "./db";
    VariableDeclaration "label" (StringLiteral "x");
    ExportDefaultDeclaration
      (ObjectExpression
         [ field "serverLoader" (ArrowFunctionExpression [] (Identifier "db"));
           field "Component" (ArrowFunctionExpression [] (Identifier "label")) ]) ].

(** The same module without the loader and without the import it used. *)
Definition componentOnly : File :=
  [ VariableDeclaration "label" (StringLiteral "x");
    ExportDefaultDeclaration
      (ObjectExpression
         [ field "Component" (ArrowFunctionExpression [] (Identifier "label")) ]) ].

(** [const unused = 1; export default { Component: () => 1 };] *)
Definition clientOnly : File :=
  [ VariableDeclaration "unused" (NumericLiteral 1);
    ExportDefaultDeclaration (ObjectExpression [ field "Component" (thunk 1) ]) ].

(** [import { defineRoute } from "react-router"; const r = defineRoute;] *)
Definition assigned : File :=
  [ importDefineRoute;
    VariableDeclaration "r" (Identifier "defineRoute") ].

End MoreExamples.
Import MoreExamples.

(* ------------------------------------------------------------------------- *)
(** ** The server target *)

(** C2: with [ssr] set, [transform] returns the very text it was given, for
    every text (parsable or not), without calling the parser or the
    generator. *)
Theorem transform_ssr_identity :
  forall (SourceMap : Type) (parse : string -> option File)
         (generate : File -> string -> string -> string * SourceMap)
         (code id : string),
    transform parse generate code id (mkOptions (Some true)) = Ok (Source SourceMap code)
    /\ outputText (Source SourceMap code) = code.
Proof.
  intros; split; reflexivity.
Qed.

(* ------------------------------------------------------------------------- *)
(** ** The canonical import *)

Lemma isCanonicallyImportedAs_spec (b : Binding) (s i : string) :
  isCanonicallyImportedAs b s i = true <-> b = canonicalBinding s i.
Proof.
  unfold isCanonicallyImportedAs, canonicalBinding.
  destruct b as [n p]; simpl.
  split.
  - destruct p as [src | ty]; [ | discriminate ].
    destruct (String.eqb_spec src s) as [-> | Hs]; simpl; [ | discriminate ].
    destruct n as [[name | v] | | | | | ]; try discriminate.
    destruct (String.eqb_spec name i) as [-> | Hn]; simpl; [ | discriminate ].
    reflexivity.
  - intros H; injection H as -> ->.
    now rewrite !String.eqb_refl.
Qed.

Lemma isDefineRoute_spec (ast : File) (sc : scope) (node : expr) :
  isDefineRoute ast sc node = true <->
  exists name, node = Identifier name /\
               getBinding ast sc name = Some (canonicalBinding "react-router" "defineRoute").
Proof.
  unfold isDefineRoute; split.
  - destruct node; try discriminate.
    destruct (getBinding ast sc name) as [b | ] eqn:Hb; [ | discriminate ].
    intros H; apply isCanonicallyImportedAs_spec in H; subst b.
    eexists; split; [ reflexivity | exact Hb ].
  - intros (name & -> & Hb); rewrite Hb.
    now apply isCanonicallyImportedAs_spec.
Qed.

(** C5: a default-exported call whose callee does not resolve to the factory
    is rejected with the "literal object or call to defineRoute" error, at the
    call; the test on a binding holds exactly for an import specifier whose
    imported name is an identifier equal to the name asked for, in an import
    declaration whose source equals the source asked for; and [isDefineRoute]
    holds exactly for an identifier bound to such a specifier importing
    [defineRoute] from [react-router]. *)
Theorem canonical_factory_test :
  forall (ast : File) (path : NodePath) (f : expr) (args : list expr),
    isDefineRoute ast [] f = false ->
    (analyzeRouteExport ast path (CallExpression f args)
       = Err (mkError msgDefaultExport (path ++ [K_declaration]))
     /\ SchemaError (mkError msgDefaultExport (path ++ [K_declaration])))
    /\ (forall b s i, isCanonicallyImportedAs b s i = true <-> b = canonicalBinding s i)
    /\ (forall sc node,
          isDefineRoute ast sc node = true <->
          exists name, node = Identifier name /\
            getBinding ast sc name = Some (canonicalBinding "react-router" "defineRoute")).
Proof.
  intros ast path f args H; repeat split.
  - simpl; now rewrite H.
  - unfold SchemaError; simpl; now left.
  - now apply isCanonicallyImportedAs_spec.
  - now apply isCanonicallyImportedAs_spec.
  - now apply isDefineRoute_spec.
  - now apply isDefineRoute_spec.
Qed.

Lemma canonical_factory_test_witness :
  isDefineRoute defaultImported [] (Identifier "defineRoute") = false
  /\ analyzeRouteExport defaultImported [K_body 1]
       (CallExpression (Identifier "defineRoute") [ObjectExpression []])
     = Err (mkError msgDefaultExport [K_body 1; K_declaration]).
Proof.
  split; [ reflexivity | ].
  exact (proj1 (proj1 (canonical_factory_test defaultImported [K_body 1]
                         (Identifier "defineRoute") [ObjectExpression []] eq_refl))).
Defined.

(* ------------------------------------------------------------------------- *)
(** ** Modules without default export *)

Lemma removePropertiesFrom_nil (path : NodePath) (props : list (property expr)) (i : nat) :
  removePropertiesFrom [] path i props = props.
Proof.
  revert i; induction props as [ | p props IH]; intros i; simpl; [ reflexivity | ].
  now rewrite IH.
Qed.

Lemma removeMarkedFrom_nil (ast : File) (i : nat) :
  removeMarkedFrom [] i ast = ast.
Proof.
  revert i; induction ast as [ | s ast IH]; intros i; simpl; [ reflexivity | ].
  rewrite IH; f_equal.
  destruct s as [ | | | e | ]; simpl; try reflexivity.
  destruct e as [ | | | | props | f args | | ]; try reflexivity.
  - now rewrite removePropertiesFrom_nil.
  - destruct args as [ | a rest]; [ reflexivity | ].
    destruct a; try reflexivity.
    now rewrite removePropertiesFrom_nil.
Qed.

Lemma markForRemovalFrom_no_export (ast : File) (stmts : list statement)
    (i : nat) (marked : list NodePath) :
  forallb (fun s => negb (isExportDefault s)) stmts = true ->
  markForRemovalFrom ast i stmts marked = Ok marked.
Proof.
  revert i; induction stmts as [ | s stmts IH]; intros i H; simpl in *; [ reflexivity | ].
  apply andb_true_iff in H as [Hs H].
  destruct s; simpl in Hs; try discriminate; now apply IH.
Qed.

Lemma fieldsFrom_no_export (ast : File) (stmts : list statement)
    (i : nat) (fields : list string) :
  forallb (fun s => negb (isExportDefault s)) stmts = true ->
  fieldsFrom ast i stmts fields = Ok fields.
Proof.
  revert i; induction stmts as [ | s stmts IH]; intros i H; simpl in *; [ reflexivity | ].
  apply andb_true_iff in H as [Hs H].
  destruct s; simpl in Hs; try discriminate; now apply IH.
Qed.

(** C10: on a module that parses, passes the misuse guard and has no default
    export, [parseFields] returns the empty list, the traversal of [transform]
    marks nothing for removal, and the client transform generates the tree
    that dead-code elimination leaves of the unchanged module; no schema error
    is raised. *)
Theorem no_default_export_no_fields :
  forall (SourceMap : Type) (parse : string -> option File)
         (generate : File -> string -> string -> string * SourceMap)
         (code id : string) (options : Options) (ast : File),
    parse code = Some ast ->
    assertDefineRouteOnlyAfterExportDefault ast = Ok tt ->
    forallb (fun s => negb (isExportDefault s)) ast = true ->
    ssr options <> Some true ->
    parseFields parse code = Ok []
    /\ markForRemoval ast = Ok []
    /\ transform parse generate code id options
       = Ok (Generated
               (generate (deadCodeElimination ast (findReferencedIdentifiers ast))
                         id code)).
Proof.
  intros SourceMap parse generate code id options ast Hparse Hguard Hno Hssr.
  assert (Hmark : markForRemoval ast = Ok [])
    by (now apply markForRemovalFrom_no_export).
  repeat split.
  - unfold parseFields, parseOrThrow; rewrite Hparse; simpl.
    unfold parseFieldsAst; rewrite Hguard; simpl.
    now rewrite fieldsFrom_no_export.
  - exact Hmark.
  - unfold transform.
    assert (Hbody :
      (ast0 <- parseOrThrow parse code ;;
       ast' <- liftFrame (transformAst ast0) ;;
       Ok (Generated (generate ast' id code)))
      = Ok (Generated
              (generate (deadCodeElimination ast (findReferencedIdentifiers ast))
                        id code))).
    { unfold parseOrThrow; rewrite Hparse; simpl.
      unfold transformAst; rewrite Hguard; simpl.
      rewrite Hmark; simpl.
      unfold removeMarked; now rewrite removeMarkedFrom_nil. }
    destruct (ssr options) as [[ | ] | ]; [ now elim Hssr | exact Hbody | exact Hbody ].
Qed.

Lemma no_default_export_no_fields_witness :
  parseFields (parseOnly "const x = 1; x;" noExport) "const x = 1; x;" = Ok []
  /\ markForRemoval noExport = Ok []
  /\ transform (parseOnly "const x = 1; x;" noExport) generateConst
       "const x = 1; x;" "route.ts" (mkOptions (Some false))
     = Ok (Generated
             (generateConst
                (deadCodeElimination noExport (findReferencedIdentifiers noExport))
                "route.ts" "const x = 1; x;")).
Proof.
  apply (@no_default_export_no_fields unit (parseOnly "const x = 1; x;" noExport)
           generateConst "const x = 1; x;" "route.ts" (mkOptions (Some false)) noExport).
  - reflexivity.
  - reflexivity.
  - reflexivity.
  - discriminate.
Defined.

(* ------------------------------------------------------------------------- *)
(** ** The [Analysis] object *)

Lemma lookup_setOwn_same (k : string) (v : NodePath) (l : list (string * NodePath)) :
  lookup k (setOwn k v l) = Some v.
Proof.
  unfold lookup.
  induction l as [ | [k' v'] l IH]; simpl.
  - now rewrite String.eqb_refl.
  - destruct (String.eqb_spec k' k) as [-> | Hk]; simpl.
    + now rewrite String.eqb_refl.
    + destruct (String.eqb_spec k' k) as [E | _]; [ now elim Hk | exact IH ].
Qed.

Lemma lookup_setOwn_other (k k' : string) (v : NodePath) (l : list (string * NodePath)) :
  k <> k' -> lookup k' (setOwn k v l) = lookup k' l.
Proof.
  intros Hne; unfold lookup.
  induction l as [ | [k0 v0] l IH]; simpl.
  - destruct (String.eqb_spec k k') as [E | _]; [ now elim Hne | reflexivity ].
  - destruct (String.eqb_spec k0 k) as [-> | Hk]; simpl.
    + destruct (String.eqb_spec k k') as [E | _]; [ now elim Hne | reflexivity ].
    + destruct (String.eqb_spec k0 k'); [ reflexivity | exact IH ].
Qed.

Lemma analysisGet_set_same (a : Analysis) (k : string) (v : NodePath) :
  analysisGet (analysisSet a k v) k = Some v.
Proof.
  unfold analysisGet, analysisSet.
  destruct (String.eqb k "__proto__"); simpl; [ reflexivity | ].
  apply lookup_setOwn_same.
Qed.

Lemma analysisGet_set_other (a : Analysis) (k k' : string) (v : NodePath) :
  k <> k' -> analysisGet (analysisSet a k v) k' = analysisGet a k'.
Proof.
  intros Hne; unfold analysisGet, analysisSet.
  destruct (String.eqb_spec k "__proto__") as [-> | Hk]; simpl.
  - destruct (String.eqb_spec k' "__proto__") as [-> | _]; [ now elim Hne | reflexivity ].
  - destruct (String.eqb k' "__proto__"); [ reflexivity | ].
    now apply lookup_setOwn_other.
Qed.

Lemma checkProperty_keyName (path : NodePath) (i : nat) (p : property expr) (k : string) :
  checkProperty path i p = Ok k -> keyName p = Some k.
Proof.
  unfold checkProperty.
  destruct p as [key c v | key c ps b | a]; simpl; try discriminate.
  - destruct c; [ discriminate | ].
    destruct key; try discriminate.
    destruct (if String.eqb name "params" then _ else _); simpl; [ | discriminate ].
    now intros [= ->].
  - destruct c; [ discriminate | ].
    destruct key; try discriminate.
    destruct (if String.eqb name "params" then _ else _); simpl; [ | discriminate ].
    now intros [= ->].
Qed.

(** The loop of [analyzeRoute] on properties that each pass their checks: it
    ends without error; a key is mapped to the path of its last occurrence,
    and a key that does not occur keeps what it was mapped to. *)
Lemma analyzeRouteFrom_last (path : NodePath) (props : list (property expr)) :
  forall (i : nat) (a : Analysis),
    (forall j p, nth_error props j = Some p ->
                 exists k, checkProperty path (i + j) p = Ok k) ->
    exists a',
      analyzeRouteFrom path i props a = Ok a'
      /\ (forall j p k,
            nth_error props j = Some p -> keyName p = Some k ->
            (forall j' q, j < j' -> nth_error props j' = Some q -> keyName q <> Some k) ->
            analysisGet a' k = Some (path ++ [K_properties (i + j)]))
      /\ (forall k,
            (forall j q, nth_error props j = Some q -> keyName q <> Some k) ->
            analysisGet a' k = analysisGet a k).
Proof.
  induction props as [ | p0 props IH]; intros i a Hok.
  - exists a; simpl; repeat split.
    + intros j p k Hj; destruct j; discriminate.
  - destruct (Hok 0 p0 eq_refl) as [k0 Hk0].
    rewrite Nat.add_0_r in Hk0.
    pose proof (checkProperty_keyName _ _ _ Hk0) as Hname0.
    destruct (IH (S i) (analysisSet a k0 (path ++ [K_properties i]))) as (a' & Hrun & Hlast & Hkeep).
    { intros j p Hj. destruct (Hok (S j) p Hj) as [k Hk].
      exists k. now rewrite Nat.add_succ_l, <- Nat.add_succ_r. }
    exists a'; simpl; rewrite Hk0; simpl; repeat split.
    + exact Hrun.
    + intros j p k Hj Hname Hlater.
      destruct j as [ | j]; simpl in Hj.
      * injection Hj as <-.
        assert (k = k0) by congruence; subst k.
        rewrite Nat.add_0_r.
        rewrite Hkeep; [ apply analysisGet_set_same | ].
        intros j q Hq. apply (Hlater (S j) q); [ lia | exact Hq ].
      * rewrite <- Nat.add_succ_comm.
        apply (Hlast j p k Hj Hname).
        intros j' q Hlt Hq. apply (Hlater (S j') q); [ lia | exact Hq ].
    + intros k Hnone.
      rewrite Hkeep.
      * apply analysisGet_set_other.
        intros ->. now apply (Hnone 0 p0 eq_refl).
      * intros j q Hq. now apply (Hnone (S j) q).
Qed.



(* ------------------------------------------------------------------------- *)
(** ** The [params] field *)

Lemma checkProperty_schema (path : NodePath) (i : nat) (p : property expr)
    (e : CodeFrameError) :
  checkProperty path i p = Err e -> SchemaError e.
Proof.
  assert (Hels : forall els pp n, checkParamElements pp n els = Err e -> SchemaError e).
  { induction els as [ | el els IH]; intros pp n; simpl; [ discriminate | ].
    destruct (isStringLiteral el); simpl; [ apply IH | ].
    intros [= <-]; unfold SchemaError, schemaMessages; simpl; tauto. }
  unfold checkProperty.
  destruct p as [key c v | key c ps b | a]; simpl.
  - destruct c; [ intros [= <-]; unfold SchemaError; simpl; tauto | ].
    destruct key; try (intros [= <-]; unfold SchemaError; simpl; tauto).
    destruct (String.eqb name "params"); simpl; [ | discriminate ].
    destruct v; simpl;
      try (intros [= <-]; unfold SchemaError; simpl; tauto).
    destruct (checkParamElements _ 0 elements) eqn:Hc; simpl; [ discriminate | ].
    intros [= <-]; now apply Hels in Hc.
  - destruct c; [ intros [= <-]; unfold SchemaError; simpl; tauto | ].
    destruct key; try (intros [= <-]; unfold SchemaError; simpl; tauto).
    destruct (String.eqb name "params"); simpl; [ | discriminate ].
    intros [= <-]; unfold SchemaError; simpl; tauto.
  - intros [= <-]; unfold SchemaError; simpl; tauto.
Qed.

(** The loop over the elements of [params]: it passes exactly when every
    element is a literal string, and otherwise throws at the first element
    that is not. *)
Lemma checkParamElements_spec (paramsPath : NodePath) (els : list (option expr)) :
  forall i,
    (forallb isStringLiteral els = true -> checkParamElements paramsPath i els = Ok tt)
    /\ (forallb isStringLiteral els = false ->
        exists n el,
          nth_error els n = Some el /\ isStringLiteral el = false
          /\ (forall m el', m < n -> nth_error els m = Some el' -> isStringLiteral el' = true)
          /\ checkParamElements paramsPath i els
             = Err (mkError msgParamString (paramsPath ++ [K_value; K_elements (i + n)]))).
Proof.
  induction els as [ | el els IH]; intros i; simpl.
  - split; [ reflexivity | discriminate ].
  - destruct (isStringLiteral el) eqn:Hel; simpl.
    + destruct (IH (S i)) as [Hall Hnot]; split; [ exact Hall | ].
      intros H; destruct (Hnot H) as (n & el' & Hn & Hbad & Hbefore & Hrun).
      exists (S n), el'; repeat split; try assumption.
      * intros [ | m] e' Hlt Hm; simpl in Hm.
        -- now injection Hm as <-.
        -- apply (Hbefore m e'); [ lia | exact Hm ].
      * now rewrite <- Nat.add_succ_comm.
    + split; [ discriminate | ].
      intros _; exists 0, el; repeat split; try assumption.
      * intros m e' Hlt; lia.
      * now rewrite Nat.add_0_r.
Qed.

(** The loop of [analyzeRoute] throws when some property fails its checks;
    the error is that of the first property that fails. *)
Lemma analyzeRouteFrom_fails (path : NodePath) (props : list (property expr)) :
  forall (i : nat) (a : Analysis) (n : nat) (p : property expr) (e : CodeFrameError),
    nth_error props n = Some p ->
    checkProperty path (i + n) p = Err e ->
    exists e',
      analyzeRouteFrom path i props a = Err e'
      /\ SchemaError e'
      /\ ((forall j q, j < n -> nth_error props j = Some q ->
                       is_ok (checkProperty path (i + j) q) = true) ->
          e' = e).
Proof.
  induction props as [ | p0 props IH]; intros i a n p e Hn Hbad.
  - destruct n; discriminate.
  - simpl. destruct (checkProperty path i p0) as [k0 | e0] eqn:H0; simpl.
    + destruct n as [ | n]; simpl in Hn.
      * injection Hn as <-. rewrite Nat.add_0_r in Hbad. congruence.
      * rewrite <- Nat.add_succ_comm in Hbad.
        destruct (IH (S i) (analysisSet a k0 (path ++ [K_properties i])) n p e Hn Hbad)
          as (e' & Hrun & Hschema & Hfirst).
        exists e'; repeat split; try assumption.
        intros Hbefore; apply Hfirst.
        intros j q Hlt Hq. rewrite Nat.add_succ_comm.
        apply (Hbefore (S j) q); [ lia | exact Hq ].
    + exists e0; repeat split.
      * now apply checkProperty_schema in H0.
      * intros Hbefore. destruct n as [ | n]; simpl in Hn.
        -- injection Hn as <-. rewrite Nat.add_0_r in Hbad. congruence.
        -- specialize (Hbefore 0 p0 (Nat.lt_0_succ n) eq_refl).
           rewrite Nat.add_0_r, H0 in Hbefore. discriminate.
Qed.

Lemma namedParams_inv (p : property expr) :
  namedParams p = true ->
  (exists v, p = ObjectProperty (Identifier "params") false v)
  \/ (exists ps b, p = ObjectMethod (Identifier "params") false ps b).
Proof.
  unfold namedParams, keyName.
  destruct p as [[] [] v | [] [] ps b | a]; try discriminate.
  - intros H; apply String.eqb_eq in H; subst; left; now exists v.
  - intros H; apply String.eqb_eq in H; subst; right; now exists ps, b.
Qed.

(** What the checks do on a property named [params]. *)
Lemma checkProperty_params (path : NodePath) (i : nat) (p : property expr) :
  namedParams p = true ->
  (literalStringArray p = true -> checkProperty path i p = Ok "params")
  /\ (literalArray p = false ->
      checkProperty path i p = Err (mkError msgParamsArray (path ++ [K_properties i])))
  /\ (literalArray p = true -> literalStringArray p = false ->
      exists n el,
        nth_error (elementsOf p) n = Some el /\ isStringLiteral el = false
        /\ (forall m el', m < n -> nth_error (elementsOf p) m = Some el' ->
                          isStringLiteral el' = true)
        /\ checkProperty path i p
           = Err (mkError msgParamString
                    ((path ++ [K_properties i]) ++ [K_value; K_elements n]))).
Proof.
  intros Hnamed.
  destruct (namedParams_inv p Hnamed) as [[v ->] | (ps & b & ->)].
  - destruct v as [ | | | els | | | | ]; simpl;
      try (repeat split; intros; try discriminate; reflexivity).
    destruct (checkParamElements_spec (path ++ [K_properties i]) els 0) as [Hall Hnot].
    repeat split.
    + intros H; unfold checkProperty; simpl. now rewrite (Hall H).
    + discriminate.
    + intros _ H. destruct (Hnot H) as (n & el & Hn & Hbad & Hbefore & Hrun).
      exists n, el; repeat split; try assumption.
      unfold checkProperty; simpl. now rewrite Hrun.
  - simpl; repeat split; intros; try discriminate; reflexivity.
Qed.

(** C6: a property named [params] passes the checks when its value is a
    literal array of literal strings; otherwise the analysis of an object
    literal that contains it throws a schema error and returns no analysis,
    and when the properties before it pass their checks, that error is "params
    must be a literal array", at the property, for a value that is no literal
    array (or a method), and "param must be a literal string", at the first
    element that is no literal string, for a literal array. *)
Theorem params_literal_string_array :
  forall (path : NodePath) (props : list (property expr)) (i : nat) (p : property expr),
    nth_error props i = Some p ->
    namedParams p = true ->
    (literalStringArray p = true -> checkProperty path i p = Ok "params")
    /\ (literalStringArray p = false ->
        exists e,
          analyzeRoute path props = Err e
          /\ SchemaError e
          /\ ((forall j q, j < i -> nth_error props j = Some q ->
                           is_ok (checkProperty path j q) = true) ->
              (literalArray p = false ->
               e = mkError msgParamsArray (path ++ [K_properties i]))
              /\ (literalArray p = true ->
                  exists n el,
                    nth_error (elementsOf p) n = Some el
                    /\ isStringLiteral el = false
                    /\ (forall m el', m < n -> nth_error (elementsOf p) m = Some el' ->
                                      isStringLiteral el' = true)
                    /\ e = mkError msgParamString
                             ((path ++ [K_properties i]) ++ [K_value; K_elements n])))).
Proof.
  intros path props i p Hi Hnamed.
  destruct (checkProperty_params path i p Hnamed) as (Hgood & Hshape & Helem).
  split; [ exact Hgood | ].
  intros Hbad.
  destruct (literalArray p) eqn:Harr.
  - destruct (Helem eq_refl Hbad) as (n & el & Hn & Hel & Hbefore & Hcheck).
    destruct (analyzeRouteFrom_fails path props 0 emptyAnalysis i Hi Hcheck)
      as (e & Hrun & Hschema & Hfirst).
    exists e; repeat split; try assumption.
    + discriminate.
    + intros _. exists n, el; repeat split; try assumption.
      apply Hfirst. exact H.
  - pose proof (Hshape eq_refl) as Hcheck.
    destruct (analyzeRouteFrom_fails path props 0 emptyAnalysis i Hi Hcheck)
      as (e & Hrun & Hschema & Hfirst).
    exists e; repeat split; try assumption.
    + intros _. apply Hfirst. exact H.
    + discriminate.
Qed.

Lemma params_literal_string_array_witness :
  exists e,
    analyzeRoute [K_body 0; K_declaration] badParams = Err e
    /\ SchemaError e
    /\ exists n el,
         nth_error [Some (StringLiteral "id"); Some (NumericLiteral 7)] n = Some el
         /\ isStringLiteral el = false
         /\ e = mkError msgParamString
                  [K_body 0; K_declaration; K_properties 1; K_value; K_elements n].
Proof.
  destruct (@params_literal_string_array [K_body 0; K_declaration] badParams 1
              (field "params"
                 (ArrayExpression [Some (StringLiteral "id"); Some (NumericLiteral 7)]))
              eq_refl eq_refl) as [_ Hbad].
  destruct (Hbad eq_refl) as (e & Hrun & Hschema & Hfirst).
  exists e; split; [ exact Hrun | split; [ exact Hschema | ] ].
  assert (Hbefore : forall j q, j < 1 -> nth_error badParams j = Some q ->
                      is_ok (checkProperty [K_body 0; K_declaration] j q) = true).
  { intros [ | j] q Hlt H; [ | lia ]. injection H as <-. reflexivity. }
  destruct (Hfirst Hbefore) as [_ Helem].
  destruct (Helem eq_refl) as (n & el & Hn & Hel & _ & He).
  exists n, el; repeat split; assumption.
Defined.

(* ------------------------------------------------------------------------- *)
(** ** The fields listed by [parseFields] *)

Lemma firstOccurrencesFrom_ext (l : list string) :
  forall seen seen',
    (forall x, mem x seen = mem x seen') ->
    firstOccurrencesFrom seen l = firstOccurrencesFrom seen' l.
Proof.
  induction l as [ | x l IH]; intros seen seen' Hsame; simpl; [ reflexivity | ].
  rewrite <- (Hsame x).
  destruct (mem x seen); [ now apply IH | ].
  f_equal; apply IH.
  intros y; unfold mem; simpl. f_equal. apply Hsame.
Qed.

Lemma keys_setOwn (k : string) (v : NodePath) (l : list (string * NodePath)) :
  map fst (setOwn k v l)
  = if mem k (map fst l) then map fst l else map fst l ++ [k].
Proof.
  induction l as [ | [k' v'] l IH]; simpl; [ reflexivity | ].
  unfold mem in *; simpl.
  rewrite (String.eqb_sym k k').
  destruct (String.eqb k' k); simpl; [ reflexivity | ].
  rewrite IH.
  now destruct (existsb (String.eqb k) (map fst l)).
Qed.

(** The own keys after the loop of [analyzeRoute]: the keys there were, then
    the new names in the order of their first occurrence, [__proto__]
    excepted. *)
Lemma analyzeRouteFrom_keys (path : NodePath) (props : list (property expr)) :
  forall (i : nat) (a a' : Analysis),
    analyzeRouteFrom path i props a = Ok a' ->
    keysOf a'
    = keysOf a ++ firstOccurrencesFrom (keysOf a) (filter notProto (keyNames props)).
Proof.
  induction props as [ | p props IH]; intros i a a' Hrun; simpl in Hrun.
  - injection Hrun as <-. simpl. now rewrite app_nil_r.
  - destruct (checkProperty path i p) as [k | e] eqn:Hk; simpl in Hrun; [ | discriminate ].
    apply checkProperty_keyName in Hk.
    rewrite (IH _ _ _ Hrun).
    unfold keyNames; simpl; rewrite Hk; simpl.
    fold (keyNames props).
    unfold analysisSet, notProto at 2.
    destruct (String.eqb k "__proto__"); simpl; [ reflexivity | ].
    unfold keysOf; simpl. rewrite keys_setOwn.
    destruct (mem k (map fst (own a))) eqn:Hmem; [ reflexivity | ].
    rewrite <- app_assoc; simpl. do 2 f_equal.
    apply firstOccurrencesFrom_ext.
    intros x; unfold mem. rewrite existsb_app; simpl.
    rewrite orb_false_r. apply orb_comm.
Qed.

Lemma analyzeRouteExport_keys (ast : File) (path : NodePath) (route : expr)
    (a : Analysis) :
  analyzeRouteExport ast path route = Ok a ->
  keysOf a = firstOccurrences (filter notProto (keyNames (routeProperties route))).
Proof.
  unfold analyzeRouteExport, analyzeRoute.
  destruct route as [ | | | | props | f args | | ]; try discriminate.
  - intros H; now apply analyzeRouteFrom_keys in H.
  - destruct (isDefineRoute ast [] f); simpl; [ | discriminate ].
    destruct (Nat.eqb (length args) 1); simpl; [ | discriminate ].
    destruct args as [ | arg rest]; [ discriminate | ].
    destruct arg; try discriminate.
    intros H; now apply analyzeRouteFrom_keys in H.
Qed.

Lemma fieldsFrom_keys (ast : File) (stmts : list statement) :
  forall (i : nat) (fields result : list string),
    fieldsFrom ast i stmts fields = Ok result ->
    result = match lastExport stmts with
             | Some route =>
                 firstOccurrences (filter notProto (keyNames (routeProperties route)))
             | None => fields
             end.
Proof.
  induction stmts as [ | s stmts IH]; intros i fields result Hrun; simpl in Hrun.
  - simpl. congruence.
  - simpl. destruct s as [ | | | route | ];
      try (specialize (IH _ _ _ Hrun); destruct (lastExport stmts); exact IH).
    destruct (analyzeRouteExport ast [K_body i] route) as [a | e] eqn:Ha;
      simpl in Hrun; [ | discriminate ].
    specialize (IH _ _ _ Hrun).
    destruct (lastExport stmts); [ exact IH | ].
    rewrite IH. now apply analyzeRouteExport_keys in Ha.
Qed.

Lemma lastExport_In (stmts : list statement) (route : expr) :
  lastExport stmts = Some route -> In (ExportDefaultDeclaration route) stmts.
Proof.
  induction stmts as [ | s stmts IH]; simpl; [ discriminate | ].
  destruct (lastExport stmts) as [r | ].
  - intros H. right. now apply IH.
  - destruct s; try discriminate. intros [= ->]. now left.
Qed.

Lemma filter_notProto_protoFree (props : list (property expr)) :
  protoFree props -> filter notProto (keyNames props) = keyNames props.
Proof.
  unfold protoFree. generalize (keyNames props) as l.
  induction l as [ | k l IH]; simpl; intros Hfree; [ reflexivity | ].
  unfold notProto at 1.
  destruct (String.eqb_spec k "__proto__") as [-> | _]; simpl.
  - elim Hfree. now left.
  - f_equal. apply IH. intros H. apply Hfree. now right.
Qed.

(** C4, as the code has it: on a module none of whose default exports has a
    [__proto__] key, when [parseFields] succeeds it returns the literal key
    names of the properties of the default export, each once, in the order of
    their first occurrence; the names are not confined to the enumerated
    set. *)
Theorem parseFields_lists_key_names :
  forall (parse : string -> option File) (code : string) (ast : File)
         (fields : list string),
    parse code = Some ast ->
    (forall route, In (ExportDefaultDeclaration route) ast ->
                   protoFree (routeProperties route)) ->
    parseFields parse code = Ok fields ->
    fields = firstOccurrences (keyNames (exportProperties ast)).
Proof.
  intros parse code ast fields Hparse Hfree Hrun.
  unfold parseFields, parseOrThrow in Hrun; rewrite Hparse in Hrun; simpl in Hrun.
  unfold parseFieldsAst in Hrun.
  destruct (assertDefineRouteOnlyAfterExportDefault ast); simpl in Hrun; [ | discriminate ].
  destruct (fieldsFrom ast 0 ast []) as [r | e] eqn:Hfields; simpl in Hrun; [ | discriminate ].
  injection Hrun as <-.
  apply fieldsFrom_keys in Hfields.
  unfold exportProperties.
  destruct (lastExport ast) as [route | ] eqn:Hlast; [ | exact Hfields ].
  rewrite Hfields.
  now rewrite (filter_notProto_protoFree (Hfree route (lastExport_In ast Hlast))).
Qed.

Lemma parseFields_lists_key_names_witness :
  parseFields (parseOnly withHeadersText withHeaders) withHeadersText
    = Ok ["Component"; "headers"]
  /\ ["Component"; "headers"]
     = firstOccurrences (keyNames (exportProperties withHeaders)).
Proof.
  split; [ reflexivity | ].
  apply (@parseFields_lists_key_names (parseOnly withHeadersText withHeaders)
           withHeadersText withHeaders ["Component"; "headers"]).
  - reflexivity.
  - intros route [H | []]. injection H as <-.
    unfold protoFree; simpl.
    intros H; repeat (destruct H as [H | H]; [ discriminate | ]); exact H.
  - reflexivity.
Defined.

(** C4 as stated fails: [parseFields] succeeds on a module whose default
    export has the field [headers], and lists it, though [headers] is none of
    the eleven enumerated names. *)
Lemma parseFields_outside_fixed_set :
  parseFields (parseOnly withHeadersText withHeaders) withHeadersText
    = Ok ["Component"; "headers"]
  /\ In "headers" ["Component"; "headers"]
  /\ ~ In "headers" fixedFields.
Proof.
  split; [ reflexivity | split; [ simpl; tauto | ] ].
  unfold fixedFields; simpl.
  intros H; repeat (destruct H as [H | H]; [ discriminate | ]); exact H.
Qed.

(* ------------------------------------------------------------------------- *)
(** ** [assertNotImported] *)

Lemma In_flat_mapi_from {A B} (f : nat -> A -> list B) (l : list A) :
  forall (i : nat) (x : B),
    In x (flat_mapi_from f i l) <->
    exists j a, nth_error l j = Some a /\ In x (f (i + j) a).
Proof.
  induction l as [ | a0 l IH]; intros i x; simpl.
  - split; [ tauto | ]. intros (j & a & Hj & _). destruct j; discriminate.
  - rewrite in_app_iff, IH. split.
    + intros [H | (j & a & Hj & H)].
      * exists 0, a0. rewrite Nat.add_0_r. now split.
      * exists (S j), a. rewrite <- Nat.add_succ_comm. now split.
    + intros (j & a & Hj & H). destruct j as [ | j]; simpl in Hj.
      * injection Hj as <-. rewrite Nat.add_0_r in H. now left.
      * right. exists j, a. rewrite Nat.add_succ_comm. now split.
Qed.

Lemma forEachIdentifier_err {E} (visit : IdentifierPath -> result E unit)
    (l : list IdentifierPath) (e : E) :
  forEachIdentifier visit l = Err e -> exists ip, In ip l /\ visit ip = Err e.
Proof.
  induction l as [ | ip l IH]; simpl; [ discriminate | ].
  destruct (visit ip) as [u | e0] eqn:Hv; simpl.
  - intros H. destruct (IH H) as (ip' & Hin & Hv'). exists ip'. split; [ now right | exact Hv' ].
  - intros [= <-]. exists ip. split; [ now left | exact Hv ].
Qed.

Lemma forEachIdentifier_ok {E} (visit : IdentifierPath -> result E unit)
    (l : list IdentifierPath) :
  forEachIdentifier visit l = Ok tt -> forall ip, In ip l -> visit ip = Ok tt.
Proof.
  induction l as [ | ip0 l IH]; simpl; [ tauto | ].
  destruct (visit ip0) as [[] | e0] eqn:Hv; simpl; [ | discriminate ].
  intros H ip [<- | Hin]; [ exact Hv | now apply IH ].
Qed.

Lemma lookup_In {A} (k : string) (v : A) (l : list (string * A)) :
  lookup k l = Some v -> In (k, v) l.
Proof.
  unfold lookup. destruct (find _ l) as [[k' v'] | ] eqn:Hf; [ | discriminate ].
  intros [= <-]. apply find_some in Hf as [Hin Hk]. simpl in Hk.
  apply String.eqb_eq in Hk. now subst.
Qed.

Lemma lookup_NoDup {A} (k : string) (v : A) (l : list (string * A)) :
  NoDup (map fst l) -> In (k, v) l -> lookup k l = Some v.
Proof.
  unfold lookup.
  induction l as [ | [k' v'] l IH]; simpl; [ tauto | ].
  intros Hnd Hin. inversion Hnd as [ | ? ? Hnotin Hnd']; subst.
  destruct (String.eqb_spec k' k) as [-> | Hne].
  - destruct Hin as [[= ->] | Hin]; [ reflexivity | ].
    elim Hnotin. apply in_map_iff. now exists (k, v).
  - destruct Hin as [[= -> _] | Hin]; [ now elim Hne | now apply IH ].
Qed.

(** A binding found by [getBinding] that is an import of the factory is
    declared by an import specifier of the module. *)
Lemma getBinding_canonical (ast : File) (sc : scope) (name : string) :
  getBinding ast sc name = Some (canonicalBinding "react-router" "defineRoute") ->
  exists specs,
    In (ImportDeclaration specs "react-router") ast
    /\ In (ImportSpecifier (ImportedIdentifier "defineRoute") name) specs.
Proof.
  induction sc as [ | frame sc IH]; simpl.
  - intros H. apply lookup_In in H.
    unfold programBindings in H. apply in_flat_map in H as (s & Hs & Hb).
    destruct s as [specs source | x e | f ps b | e | e]; simpl in Hb.
    + apply in_map_iff in Hb as (sp & Hsp & Hin).
      destruct sp as [i l | l | l]; simpl in Hsp; try discriminate.
      unfold canonicalBinding in Hsp. injection Hsp as -> -> ->.
      now exists specs.
    + destruct Hb as [Hb | []]; discriminate.
    + destruct Hb as [Hb | []]; discriminate.
    + destruct Hb.
    + destruct Hb.
  - destruct (mem name frame); [ discriminate | exact IH ].
Qed.

Lemma importsDefineRoute_of_path (ast : File) (ip : IdentifierPath) :
  isDefineRoutePath ast ip = true -> importsDefineRoute ast.
Proof.
  unfold isDefineRoutePath. intros H.
  apply isDefineRoute_spec in H as (name & Hname & Hb).
  apply getBinding_canonical in Hb as (specs & Hin & Hsp).
  now exists specs, name.
Qed.





(* ------------------------------------------------------------------------- *)
(** ** The misuse guard *)

(** What the guard establishes when it returns: an identifier that resolves to
    the factory is the name of an import specifier, or a child of a call
    expression that is the declaration of a default export.  The guard tests
    the type of the parent, not the position below it. *)
Lemma guard_passes_inv (ast : File) :
  assertDefineRouteOnlyAfterExportDefault ast = Ok tt ->
  forall ip,
    In ip (identifiers ast) -> isDefineRoutePath ast ip = true ->
    ip_parent ip = TImportSpecifier
    \/ (ip_parent ip = TCallExpression /\ ip_grandparent ip = TExportDefaultDeclaration).
Proof.
  intros Hguard ip Hin Hd.
  pose proof (forEachIdentifier_ok _ _ Hguard ip Hin) as Hv.
  unfold visitOnlyAfterExportDefault in Hv. rewrite Hd in Hv. simpl in Hv.
  destruct (ip_parent ip); simpl in Hv; try discriminate; try (now left).
  destruct (ip_grandparent ip); simpl in Hv; try discriminate.
  right; now split.
Qed.

(** C3 at the failing input: in [export default wrap(defineRoute)] the
    identifier [defineRoute] resolves to the factory and is an argument, not
    the callee, of the call; the guard returns without error. *)
Theorem guard_accepts_argument_use :
  In argumentUsePath (identifiers argumentUse)
  /\ isDefineRoutePath argumentUse argumentUsePath = true
  /\ last (ip_path argumentUsePath) K_callee = K_arguments 0
  /\ assertDefineRouteOnlyAfterExportDefault argumentUse = Ok tt.
Proof.
  repeat split; try reflexivity.
  simpl. right; right; right; now left.
Qed.

(* ------------------------------------------------------------------------- *)
(** ** The client target on a repeated server-only field *)

(** C1 at the failing input: of two properties named [serverLoader] the
    client transform removes the last one only; the tree it hands to the
    generator still has a [serverLoader] field. *)
Theorem transform_keeps_first_duplicate :
  transformAst duplicateLoader = Ok oneLoader
  /\ In "serverLoader" (keyNames (exportProperties oneLoader))
  /\ serverOnly "serverLoader" = true.
Proof.
  repeat split; try reflexivity.
  simpl; now left.
Qed.

(** C7 at the failing input: the client transform of the client transform of
    [{ serverLoader: ..., serverLoader: ... }] removes the property that the
    first run had left; the second run does not return the tree it was
    given. *)
Theorem transform_twice_differs :
  transformAst duplicateLoader = Ok oneLoader
  /\ transformAst oneLoader = Ok noLoader
  /\ oneLoader <> noLoader.
Proof.
  repeat split; try reflexivity.
  discriminate.
Qed.

(* ------------------------------------------------------------------------- *)
(** ** Dead-code elimination reaches a fixed point *)

Lemma filter_length_eq {A} (f : A -> bool) (l : list A) :
  length (filter f l) = length l -> filter f l = l.
Proof.
  induction l as [ | x l IH]; simpl; [ reflexivity | ].
  destruct (f x); simpl.
  - intros [= H]. now rewrite IH.
  - intros H. pose proof (filter_length_le f l). lia.
Qed.

(** A statement loses bindings in a sweep, or is left as it is. *)
Lemma sweepStatement_count (t : File) (c : list string) (s : statement) :
  length (programBindings (sweepStatement t c s)) <= length (statementBindings s)
  /\ (length (programBindings (sweepStatement t c s)) = length (statementBindings s) ->
      sweepStatement t c s = [s]).
Proof.
  unfold programBindings.
  destruct s as [specs source | x e | f ps b | e | e]; simpl.
  - set (keep := fun sp => negb (shouldBeRemoved t c (specifierLocal sp))).
    pose proof (filter_length_le keep specs) as Hle.
    destruct (filter keep specs) as [ | sp kept] eqn:Hk.
    + destruct specs as [ | sp0 specs]; simpl; [ split; [ lia | reflexivity ] | ].
      split; [ lia | discriminate ].
    + cbn [flat_map statementBindings]. rewrite app_nil_r, !length_map.
      split; [ exact Hle | ].
      intros Hlen. rewrite <- Hk in Hlen |- *.
      now rewrite (filter_length_eq keep specs Hlen).
  - destruct (shouldBeRemoved t c x); simpl; split; try lia; try reflexivity; discriminate.
  - destruct (shouldBeRemoved t c f); simpl; split; try lia; try reflexivity; discriminate.
  - split; [ lia | reflexivity ].
  - split; [ lia | reflexivity ].
Qed.

Lemma sweep_count_from (t : File) (c : list string) (l : list statement) :
  length (programBindings (flat_map (sweepStatement t c) l)) <= length (programBindings l)
  /\ (length (programBindings (flat_map (sweepStatement t c) l)) = length (programBindings l) ->
      flat_map (sweepStatement t c) l = l).
Proof.
  induction l as [ | s l [IHle IHeq]]; simpl; [ split; [ lia | reflexivity ] | ].
  destruct (sweepStatement_count t c s) as [Hle Heq].
  unfold programBindings in *. simpl.
  rewrite flat_map_app, !length_app.
  split; [ lia | ].
  intros H. rewrite Heq by lia. rewrite IHeq by lia. reflexivity.
Qed.

Lemma eliminate_fixed_point (c : list string) :
  forall (fuel : nat) (t : File),
    bindingCount t < fuel ->
    sweep (eliminate fuel t c) c = eliminate fuel t c.
Proof.
  induction fuel as [ | fuel IH]; intros t Hlt; [ lia | ].
  simpl.
  destruct (sweep_count_from t c t) as [Hle Heq].
  fold (sweep t c) in Hle, Heq. fold (bindingCount (sweep t c)) in Hle, Heq.
  fold (bindingCount t) in Hle, Heq.
  destruct (Nat.eqb_spec (bindingCount (sweep t c)) (bindingCount t)) as [E | NE].
  - rewrite (Heq E). exact (Heq E).
  - apply IH. lia.
Qed.

(** The sweeps of [deadCodeElimination] end before the fuel does: one more
    sweep of its result removes nothing. *)
Lemma deadCodeElimination_fixed_point (ast : File) (c : list string) :
  sweep (deadCodeElimination ast c) c = deadCodeElimination ast c.
Proof.
  unfold deadCodeElimination. apply eliminate_fixed_point. lia.
Qed.

(* ------------------------------------------------------------------------- *)
(** ** Stripping server-only fields that occur once *)

Lemma step_eqb_refl (a : step) : step_eqb a a = true.
Proof. destruct a; simpl; try reflexivity; apply Nat.eqb_refl. Qed.

Lemma path_eqb_refl (p : NodePath) : path_eqb p p = true.
Proof.
  induction p as [ | a p IH]; simpl; [ reflexivity | ].
  now rewrite step_eqb_refl, IH.
Qed.

Lemma isMarked_In (marked : list NodePath) (p : NodePath) :
  In p marked -> isMarked marked p = true.
Proof.
  intros Hin. unfold isMarked. apply existsb_exists.
  exists p. split; [ exact Hin | apply path_eqb_refl ].
Qed.

Lemma analyzeRouteFrom_ok_inv (path : NodePath) (props : list (property expr)) :
  forall (i : nat) (a a' : Analysis),
    analyzeRouteFrom path i props a = Ok a' ->
    forall j p, nth_error props j = Some p ->
                exists k, checkProperty path (i + j) p = Ok k.
Proof.
  induction props as [ | p0 props IH]; intros i a a' Hrun j p Hj.
  - destruct j; discriminate.
  - simpl in Hrun.
    destruct (checkProperty path i p0) as [k0 | e] eqn:H0; simpl in Hrun; [ | discriminate ].
    destruct j as [ | j]; simpl in Hj.
    + injection Hj as <-. exists k0. now rewrite Nat.add_0_r.
    + rewrite <- Nat.add_succ_comm. exact (IH _ _ _ Hrun j p Hj).
Qed.

Lemma removePropertiesFrom_In (marked : list NodePath) (objectPath : NodePath)
    (props : list (property expr)) :
  forall (i : nat) (p : property expr),
    In p (removePropertiesFrom marked objectPath i props) ->
    exists n, nth_error props n = Some p
              /\ isMarked marked (objectPath ++ [K_properties (i + n)]) = false.
Proof.
  induction props as [ | p0 props IH]; intros i p Hin; simpl in Hin; [ contradiction | ].
  destruct (isMarked marked (objectPath ++ [K_properties i])) eqn:Hm.
  - destruct (IH _ _ Hin) as (n & Hn & Hnot).
    exists (S n). rewrite <- Nat.add_succ_comm. now split.
  - destruct Hin as [<- | Hin].
    + exists 0. rewrite Nat.add_0_r. now split.
    + destruct (IH _ _ Hin) as (n & Hn & Hnot).
      exists (S n). rewrite <- Nat.add_succ_comm. now split.
Qed.

Lemma keyNames_In (props : list (property expr)) (q : property expr) (k : string) :
  In q props -> keyName q = Some k -> In k (keyNames props).
Proof.
  intros Hin Hk. unfold keyNames. apply in_flat_map.
  exists q. split; [ exact Hin | ]. rewrite Hk. now left.
Qed.

(** A server-only name that occurs once among the keys does not occur after
    its occurrence. *)
Lemma unique_key_later (props : list (property expr)) :
  NoDup (filter serverOnly (keyNames props)) ->
  forall n p k,
    nth_error props n = Some p -> keyName p = Some k -> serverOnly k = true ->
    forall j q, n < j -> nth_error props j = Some q -> keyName q <> Some k.
Proof.
  induction props as [ | p0 props IH]; intros Hnd n p k Hn Hk Hs j q Hlt Hj Hq.
  - destruct n; discriminate.
  - assert (Htail : NoDup (filter serverOnly (keyNames props))).
    { unfold keyNames in Hnd; simpl in Hnd. fold (keyNames props) in Hnd.
      rewrite filter_app in Hnd. now apply NoDup_app_remove_l in Hnd. }
    destruct j as [ | j]; [ lia | ]. simpl in Hj.
    destruct n as [ | n]; simpl in Hn.
    + injection Hn as <-.
      unfold keyNames in Hnd; simpl in Hnd. fold (keyNames props) in Hnd.
      rewrite Hk in Hnd. simpl in Hnd. rewrite Hs in Hnd.
      inversion Hnd as [ | ? ? Hnotin _]; subst.
      apply Hnotin. apply filter_In. split; [ | exact Hs ].
      apply (keyNames_In props q); [ now apply nth_error_In in Hj | exact Hq ].
    + apply (IH Htail n p k Hn Hk Hs j q); [ lia | exact Hj | exact Hq ].
Qed.

(** Of an analysed object literal whose server-only names each occur once, no
    property with a server-only name is left when the marked paths have been
    removed. *)
Lemma analyzeRoute_strips_unique (objectPath : NodePath)
    (props : list (property expr)) (a : Analysis) (marked : list NodePath) :
  analyzeRoute objectPath props = Ok a ->
  NoDup (filter serverOnly (keyNames props)) ->
  incl (markedOf a) marked ->
  forall p k,
    In p (removePropertiesFrom marked objectPath 0 props) ->
    keyName p = Some k -> serverOnly k = false.
Proof.
  intros Hrun Hnd Hincl p k Hin Hk.
  destruct (serverOnly k) eqn:Hs; [ exfalso | reflexivity ].
  destruct (removePropertiesFrom_In _ _ _ _ _ Hin) as (n & Hn & Hnot).
  simpl in Hnot.
  unfold analyzeRoute in Hrun.
  destruct (analyzeRouteFrom_last objectPath props 0 emptyAnalysis
              (analyzeRouteFrom_ok_inv _ _ _ _ Hrun)) as (a' & Hrun' & Hlast & _).
  assert (a' = a) by congruence; subst a'.
  pose proof (Hlast n p k Hn Hk (@unique_key_later props Hnd n p k Hn Hk Hs)) as Hget.
  simpl in Hget.
  unfold analysisGet in Hget.
  destruct (String.eqb_spec k "__proto__") as [-> | _]; [ discriminate Hs | ].
  apply lookup_In in Hget.
  assert (Hmarked : In (objectPath ++ [K_properties n]) (markedOf a)).
  { unfold markedOf, entriesOf. apply in_map_iff.
    exists (k, objectPath ++ [K_properties n]). split; [ reflexivity | ].
    apply filter_In. split; [ exact Hget | exact Hs ]. }
  apply Hincl, isMarked_In in Hmarked. congruence.
Qed.

Lemma keyNames_In_inv (props : list (property expr)) (k : string) :
  In k (keyNames props) -> exists p, In p props /\ keyName p = Some k.
Proof.
  unfold keyNames. intros H. apply in_flat_map in H as (p & Hin & Hk).
  exists p. split; [ exact Hin | ].
  destruct (keyName p) as [k' | ]; [ | contradiction ].
  destruct Hk as [-> | []]. reflexivity.
Qed.

Lemma sweepStatement_export (t : File) (c : list string) (s : statement) (r : expr) :
  In (ExportDefaultDeclaration r) (sweepStatement t c s) ->
  s = ExportDefaultDeclaration r.
Proof.
  destruct s as [specs source | x e | f ps b | e | e]; simpl.
  - destruct (filter _ specs); [ destruct specs | ]; simpl;
      intros H; repeat (destruct H as [H | H]; try discriminate); contradiction.
  - destruct (shouldBeRemoved t c x); simpl;
      intros H; repeat (destruct H as [H | H]; try discriminate); contradiction.
  - destruct (shouldBeRemoved t c f); simpl;
      intros H; repeat (destruct H as [H | H]; try discriminate); contradiction.
  - intros [H | []]. exact H.
  - intros [H | []]. discriminate.
Qed.

(** Dead-code elimination adds no default export and changes none. *)
Lemma eliminate_exports (c : list string) (r : expr) :
  forall (fuel : nat) (t : File),
    In (ExportDefaultDeclaration r) (eliminate fuel t c) ->
    In (ExportDefaultDeclaration r) t.
Proof.
  assert (Hsweep : forall t, In (ExportDefaultDeclaration r) (sweep t c) ->
                             In (ExportDefaultDeclaration r) t).
  { intros t H. unfold sweep in H. apply in_flat_map in H as (s & Hs & Hin).
    apply sweepStatement_export in Hin. now subst. }
  induction fuel as [ | fuel IH]; intros t H; simpl in H; [ exact H | ].
  destruct (Nat.eqb _ _); [ now apply Hsweep | now apply Hsweep, IH ].
Qed.

Lemma removeMarkedFrom_In (marked : list NodePath) (ast : File) :
  forall (i : nat) (s' : statement),
    In s' (removeMarkedFrom marked i ast) ->
    exists j s, nth_error ast j = Some s /\ s' = removeMarkedIn marked (i + j) s.
Proof.
  induction ast as [ | s0 ast IH]; intros i s' Hin; simpl in Hin; [ contradiction | ].
  destruct Hin as [<- | Hin].
  - exists 0, s0. rewrite Nat.add_0_r. now split.
  - destruct (IH _ _ Hin) as (j & s & Hj & Hs).
    exists (S j), s. rewrite <- Nat.add_succ_comm. now split.
Qed.

(** The traversal of [transform] analyses every default export and marks what
    the analysis maps the server-only names to. *)
Lemma markForRemovalFrom_incl (ast : File) (stmts : list statement) :
  forall (i : nat) (m0 marked : list NodePath),
    markForRemovalFrom ast i stmts m0 = Ok marked ->
    incl m0 marked
    /\ forall j route,
         nth_error stmts j = Some (ExportDefaultDeclaration route) ->
         exists a, analyzeRouteExport ast [K_body (i + j)] route = Ok a
                   /\ incl (markedOf a) marked.
Proof.
  induction stmts as [ | s stmts IH]; intros i m0 marked Hrun; simpl in Hrun.
  - injection Hrun as <-. split; [ apply incl_refl | ].
    intros j route Hj. destruct j; discriminate.
  - assert (Hskip : markForRemovalFrom ast (S i) stmts m0 = Ok marked ->
                    (forall route, s <> ExportDefaultDeclaration route) ->
                    incl m0 marked
                    /\ forall j route,
                         nth_error (s :: stmts) j = Some (ExportDefaultDeclaration route) ->
                         exists a, analyzeRouteExport ast [K_body (i + j)] route = Ok a
                                   /\ incl (markedOf a) marked).
    { intros Hrest Hne. destruct (IH _ _ _ Hrest) as [Hincl Hall].
      split; [ exact Hincl | ].
      intros [ | j] route Hj; simpl in Hj.
      - injection Hj as ->. now elim (Hne route).
      - rewrite <- Nat.add_succ_comm. now apply Hall. }
    destruct s as [ | | | route0 | ]; try (apply Hskip; [ exact Hrun | discriminate ]).
    clear Hskip.
    destruct (analyzeRouteExport ast [K_body i] route0) as [a0 | e] eqn:Ha;
      simpl in Hrun; [ | discriminate ].
    destruct (IH _ _ _ Hrun) as [Hincl Hall].
    split.
    + intros x Hx. apply Hincl, in_or_app. now left.
    + intros [ | j] route Hj; simpl in Hj.
      * injection Hj as <-. exists a0. rewrite Nat.add_0_r. split; [ exact Ha | ].
        intros x Hx. apply Hincl, in_or_app. now right.
      * rewrite <- Nat.add_succ_comm. now apply Hall.
Qed.

(** A route that is analysed is an object literal or a call with one object
    literal; removing the marked paths removes them from its properties. *)
Lemma analyzeRouteExport_shape (ast : File) (j : nat) (route : expr) (a : Analysis)
    (marked : list NodePath) :
  analyzeRouteExport ast [K_body j] route = Ok a ->
  exists objectPath route',
    analyzeRoute objectPath (routeProperties route) = Ok a
    /\ removeMarkedIn marked j (ExportDefaultDeclaration route)
       = ExportDefaultDeclaration route'
    /\ routeProperties route'
       = removePropertiesFrom marked objectPath 0 (routeProperties route).
Proof.
  unfold analyzeRouteExport.
  destruct route as [ | | | | props | f args | | ]; try discriminate.
  - intros H. exists ([K_body j] ++ [K_declaration]). eexists.
    split; [ exact H | ]. split; reflexivity.
  - destruct (isDefineRoute ast [] f); simpl; [ | discriminate ].
    destruct (Nat.eqb (length args) 1); simpl; [ | discriminate ].
    destruct args as [ | arg rest]; [ discriminate | ].
    destruct arg; try discriminate.
    intros H. exists (([K_body j] ++ [K_declaration]) ++ [K_arguments 0]). eexists.
    split; [ exact H | ]. split; reflexivity.
Qed.

(** When no server-only name occurs twice among the keys of a default export,
    the tree that the client transform hands to the generator has no property
    with a server-only name in a default export. *)
Lemma transformAst_strips_unique (ast out : File) :
  transformAst ast = Ok out ->
  (forall route, In (ExportDefaultDeclaration route) ast ->
                 NoDup (filter serverOnly (keyNames (routeProperties route)))) ->
  forall route' k,
    In (ExportDefaultDeclaration route') out ->
    In k (keyNames (routeProperties route')) ->
    serverOnly k = false.
Proof.
  intros Hrun Hnd route' k Hout Hk.
  unfold transformAst in Hrun.
  destruct (assertDefineRouteOnlyAfterExportDefault ast); simpl in Hrun; [ | discriminate ].
  destruct (markForRemoval ast) as [marked | e] eqn:Hmark; simpl in Hrun; [ | discriminate ].
  injection Hrun as <-.
  unfold deadCodeElimination in Hout. apply eliminate_exports in Hout.
  unfold removeMarked in Hout.
  apply removeMarkedFrom_In in Hout as (j & s & Hj & Hs). simpl in Hs.
  destruct (markForRemovalFrom_incl _ _ _ _ Hmark) as [_ Hall].
  assert (Hexp : exists route, s = ExportDefaultDeclaration route).
  { destruct s as [ | | | route | ]; try discriminate. now exists route. }
  destruct Hexp as [route ->].
  destruct (Hall j route Hj) as (a & Ha & Hincl). simpl in Ha.
  destruct (analyzeRouteExport_shape ast j route marked Ha)
    as (objectPath & r & Hana & Hrem & Hprops).
  rewrite Hrem in Hs. injection Hs as ->.
  rewrite Hprops in Hk.
  apply keyNames_In_inv in Hk as (p & Hp & Hkey).
  apply (@analyzeRoute_strips_unique objectPath (routeProperties route) a marked
           Hana (Hnd route (nth_error_In _ _ Hj)) Hincl p k Hp Hkey).
Qed.

(* ------------------------------------------------------------------------- *)
(** ** Which properties [analyzeRoute] accepts *)

Lemma checkProperty_ok_acceptable (path : NodePath) (i : nat) (p : property expr) :
  is_ok (checkProperty path i p) = acceptable p.
Proof.
  unfold acceptable.
  destruct (keyName p) as [k | ] eqn:Hk.
  - destruct (String.eqb k "params") eqn:Hparams.
    + assert (Hnamed : namedParams p = true) by (unfold namedParams; now rewrite Hk).
      destruct (checkProperty_params path i p Hnamed) as (Hgood & Hshape & Helem).
      destruct (literalStringArray p) eqn:Hlit.
      * now rewrite Hgood.
      * destruct (literalArray p) eqn:Harr.
        -- destruct (Helem eq_refl eq_refl) as (n & el & _ & _ & _ & Hrun). now rewrite Hrun.
        -- now rewrite Hshape.
    + unfold checkProperty.
      destruct p as [[] [] v | [] [] ps b | a]; simpl in Hk; try discriminate;
        injection Hk as ->; now rewrite Hparams.
  - unfold checkProperty.
    destruct p as [[] [] v | [] [] ps b | a]; simpl in Hk; try discriminate; reflexivity.
Qed.

Lemma analyzeRouteFrom_ok_acceptable (path : NodePath) (props : list (property expr)) :
  forall (i : nat) (a : Analysis),
    is_ok (analyzeRouteFrom path i props a) = forallb acceptable props.
Proof.
  induction props as [ | p props IH]; intros i a; simpl; [ reflexivity | ].
  rewrite <- (checkProperty_ok_acceptable path i p).
  destruct (checkProperty path i p); simpl; [ apply IH | reflexivity ].
Qed.

(** X1: [analyzeRoute] returns an analysis exactly when every property of the
    object literal has a literal identifier key and, if that key is [params],
    a literal array of literal strings as value; in every other case it
    throws. *)
Theorem analyzeRoute_ok_iff_acceptable :
  forall (path : NodePath) (props : list (property expr)),
    (exists a, analyzeRoute path props = Ok a)
    <-> forall p, In p props -> acceptable p = true.
Proof.
  intros path props.
  rewrite <- forallb_forall, <- (analyzeRouteFrom_ok_acceptable path props 0 emptyAnalysis).
  unfold analyzeRoute.
  destruct (analyzeRouteFrom path 0 props emptyAnalysis) as [a | e]; simpl; split.
  - reflexivity.
  - intros _; now exists a.
  - intros [a H]; discriminate.
  - discriminate.
Qed.

(** X2: [analyzeRoute] reports the first violation only: when the property at
    index [n] fails its checks with error [e] and the properties before it are
    acceptable, the error thrown is [e], whatever follows. *)
Theorem analyzeRoute_first_violation :
  forall (path : NodePath) (props : list (property expr)) (n : nat)
         (p : property expr) (e : CodeFrameError),
    nth_error props n = Some p ->
    checkProperty path n p = Err e ->
    (forall j q, j < n -> nth_error props j = Some q -> acceptable q = true) ->
    analyzeRoute path props = Err e.
Proof.
  intros path props n p e Hn Hbad Hbefore.
  destruct (analyzeRouteFrom_fails path props 0 emptyAnalysis n Hn Hbad)
    as (e' & Hrun & _ & Hfirst).
  unfold analyzeRoute. rewrite Hrun. f_equal. apply Hfirst.
  intros j q Hlt Hq. simpl. rewrite checkProperty_ok_acceptable.
  now apply (Hbefore j q).
Qed.

Lemma analyzeRoute_first_violation_witness :
  analyzeRoute [K_body 0; K_declaration] spreadThenComputed
  = Err (mkError msgSpread [K_body 0; K_declaration; K_properties 0]).
Proof.
  apply (@analyzeRoute_first_violation [K_body 0; K_declaration] spreadThenComputed 0
           (SpreadElement (Identifier "shared"))
           (mkError msgSpread [K_body 0; K_declaration; K_properties 0])).
  - reflexivity.
  - reflexivity.
  - intros j q Hlt; lia.
Defined.

(* ------------------------------------------------------------------------- *)
(** ** The keys of an analysis *)

Lemma setOwn_In (k0 : string) (v0 : NodePath) (l : list (string * NodePath))
    (k : string) (v : NodePath) :
  In (k, v) (setOwn k0 v0 l) -> (k = k0 /\ v = v0) \/ In (k, v) l.
Proof.
  induction l as [ | [k' v'] l IH]; simpl.
  - intros [[= <- <-] | []]. now left.
  - destruct (String.eqb_spec k' k0) as [-> | Hne]; simpl.
    + intros [[= <- <-] | H]; [ now left | right; now right ].
    + intros [H | H]; [ right; now left | ].
      destruct (IH H) as [Hnew | Hold]; [ now left | right; now right ].
Qed.

(** Every entry of an analysis maps the key of a property to the path of that
    property. *)
Lemma analyzeRouteFrom_entries (path : NodePath) (props : list (property expr)) :
  forall (i : nat) (a a' : Analysis) (k : string) (v : NodePath),
    analyzeRouteFrom path i props a = Ok a' ->
    In (k, v) (own a') ->
    In (k, v) (own a)
    \/ exists n p, nth_error props n = Some p /\ keyName p = Some k
                   /\ v = path ++ [K_properties (i + n)].
Proof.
  induction props as [ | p0 props IH]; intros i a a' k v Hrun Hin; simpl in Hrun.
  - injection Hrun as <-. now left.
  - destruct (checkProperty path i p0) as [k0 | e] eqn:Hk0; simpl in Hrun; [ | discriminate ].
    apply checkProperty_keyName in Hk0.
    destruct (IH _ _ _ _ _ Hrun Hin) as [Hset | (n & p & Hn & Hp & Hv)].
    + unfold analysisSet in Hset.
      destruct (String.eqb k0 "__proto__"); simpl in Hset; [ now left | ].
      apply setOwn_In in Hset as [[-> ->] | Hold]; [ | now left ].
      right. exists 0, p0. rewrite Nat.add_0_r. now repeat split.
    + right. exists (S n), p. rewrite <- Nat.add_succ_comm. now repeat split.
Qed.

Lemma firstOccurrencesFrom_complete (l : list string) :
  forall seen x, In x l -> mem x seen = false -> In x (firstOccurrencesFrom seen l).
Proof.
  induction l as [ | y l IH]; intros seen x Hin Hseen; simpl; [ contradiction | ].
  destruct (String.eqb_spec x y) as [<- | Hne].
  - rewrite Hseen. now left.
  - destruct Hin as [-> | Hin]; [ now elim Hne | ].
    destruct (mem y seen); [ now apply IH | ].
    right. apply IH; [ exact Hin | ].
    unfold mem in *. simpl. rewrite Hseen.
    destruct (String.eqb_spec x y); [ contradiction | reflexivity ].
Qed.

Lemma firstOccurrencesFrom_sound (l : list string) :
  forall seen x, In x (firstOccurrencesFrom seen l) -> In x l.
Proof.
  induction l as [ | y l IH]; intros seen x; simpl; [ tauto | ].
  destruct (mem y seen); [ intros H; right; now apply (IH seen) | ].
  intros [<- | H]; [ now left | right; now apply (IH (y :: seen)) ].
Qed.

(** X3: for an object literal without a [__proto__] key, the entries of the
    analysis are exactly what the properties give: a name is an own key of the
    analysis exactly when a property has that key, and every entry pairs the
    key of a property with the path of that property. *)
Theorem analysis_has_exactly_the_keys :
  forall (path : NodePath) (props : list (property expr)) (a : Analysis),
    analyzeRoute path props = Ok a ->
    protoFree props ->
    (forall k, In k (keysOf a) <-> In k (keyNames props))
    /\ (forall k v, In (k, v) (entriesOf a) ->
          exists n p, nth_error props n = Some p /\ keyName p = Some k
                      /\ v = path ++ [K_properties n]).
Proof.
  intros path props a Hrun Hfree. unfold analyzeRoute in Hrun. split.
  - intros k. rewrite (analyzeRouteFrom_keys _ _ _ _ Hrun). simpl.
    rewrite (filter_notProto_protoFree Hfree). split.
    + apply firstOccurrencesFrom_sound.
    + intros H. now apply firstOccurrencesFrom_complete.
  - intros k v Hin. unfold entriesOf in Hin.
    destruct (analyzeRouteFrom_entries _ _ _ _ _ _ Hrun Hin) as [[] | H]. exact H.
Qed.

Lemma analysis_has_exactly_the_keys_witness :
  (forall k,
      In k (keysOf (mkAnalysis
                      [ ("Component", [K_body 0; K_declaration; K_properties 2]);
                        ("meta", [K_body 0; K_declaration; K_properties 1]) ] None))
      <-> In k (keyNames duplicated))
  /\ (forall k v,
        In (k, v) (entriesOf (mkAnalysis
                      [ ("Component", [K_body 0; K_declaration; K_properties 2]);
                        ("meta", [K_body 0; K_declaration; K_properties 1]) ] None)) ->
        exists n p, nth_error duplicated n = Some p /\ keyName p = Some k
                    /\ v = [K_body 0; K_declaration] ++ [K_properties n]).
Proof.
  apply (@analysis_has_exactly_the_keys [K_body 0; K_declaration] duplicated
           (mkAnalysis [ ("Component", [K_body 0; K_declaration; K_properties 2]);
                         ("meta", [K_body 0; K_declaration; K_properties 1]) ] None)).
  - reflexivity.
  - unfold protoFree; simpl.
    intros H; repeat (destruct H as [H | H]; [ discriminate | ]); exact H.
Defined.

(* ------------------------------------------------------------------------- *)
(** ** Where the errors of the matcher point *)

Lemma checkParamElements_loc (paramsPath : NodePath) (els : list (option expr))
    (e : CodeFrameError) :
  forall i,
    checkParamElements paramsPath i els = Err e ->
    exists n, loc e = paramsPath ++ [K_value; K_elements n].
Proof.
  induction els as [ | el els IH]; intros i; simpl; [ discriminate | ].
  destruct (isStringLiteral el); simpl; [ apply IH | ].
  intros [= <-]. now exists i.
Qed.

Lemma checkProperty_loc (path : NodePath) (i : nat) (p : property expr)
    (e : CodeFrameError) :
  checkProperty path i p = Err e ->
  exists rest, loc e = path ++ K_properties i :: rest.
Proof.
  assert (Hhere : forall m, exists rest,
            loc (mkError m (path ++ [K_properties i])) = path ++ K_properties i :: rest)
    by (intros m; now exists []).
  unfold checkProperty.
  destruct p as [key c v | key c ps b | a]; simpl.
  - destruct c; [ intros [= <-]; apply Hhere | ].
    destruct key; try (intros [= <-]; apply Hhere).
    destruct (String.eqb name "params"); simpl; [ | discriminate ].
    destruct v; simpl; try (intros [= <-]; apply Hhere).
    destruct (checkParamElements _ 0 elements) eqn:Hc; simpl; [ discriminate | ].
    intros [= <-]. apply checkParamElements_loc in Hc as [n Hn].
    exists [K_value; K_elements n]. rewrite Hn. now rewrite <- app_assoc.
  - destruct c; [ intros [= <-]; apply Hhere | ].
    destruct key; try (intros [= <-]; apply Hhere).
    destruct (String.eqb name "params"); simpl; [ | discriminate ].
    intros [= <-]; apply Hhere.
  - intros [= <-]; apply Hhere.
Qed.

Lemma analyzeRouteFrom_err_inv (path : NodePath) (props : list (property expr))
    (e : CodeFrameError) :
  forall (i : nat) (a : Analysis),
    analyzeRouteFrom path i props a = Err e ->
    exists n p, nth_error props n = Some p /\ checkProperty path (i + n) p = Err e.
Proof.
  induction props as [ | p0 props IH]; intros i a; simpl; [ discriminate | ].
  destruct (checkProperty path i p0) as [k0 | e0] eqn:H0; simpl.
  - intros H. destruct (IH _ _ H) as (n & p & Hn & Hp).
    exists (S n), p. rewrite <- Nat.add_succ_comm. now split.
  - intros [= <-]. exists 0, p0. rewrite Nat.add_0_r. now split.
Qed.

Lemma analyzeRoute_error_located (path : NodePath) (props : list (property expr))
    (e : CodeFrameError) :
  analyzeRoute path props = Err e ->
  SchemaError e /\ exists rest, loc e = path ++ rest.
Proof.
  unfold analyzeRoute. intros H.
  apply analyzeRouteFrom_err_inv in H as (n & p & _ & Hp).
  split; [ now apply checkProperty_schema in Hp | ].
  apply checkProperty_loc in Hp as [rest Hrest].
  now exists (K_properties (0 + n) :: rest).
Qed.

(** X4: every error that [analyzeRouteExport] throws carries one of the seven
    messages of the schema and is located at the declaration of the default
    export or at a node below it. *)
Theorem analyzeRouteExport_error_located :
  forall (ast : File) (path : NodePath) (route : expr) (e : CodeFrameError),
    analyzeRouteExport ast path route = Err e ->
    SchemaError e /\ exists rest, loc e = path ++ K_declaration :: rest.
Proof.
  intros ast path route e.
  assert (Hhere : forall m, In m schemaMessages ->
            SchemaError (mkError m (path ++ [K_declaration]))
            /\ exists rest, loc (mkError m (path ++ [K_declaration]))
                            = path ++ K_declaration :: rest)
    by (intros m Hm; split; [ exact Hm | now exists [] ]).
  assert (Hdefault : In msgDefaultExport schemaMessages) by (simpl; tauto).
  unfold analyzeRouteExport.
  destruct route as [ | | | | props | f args | | ];
    try (intros [= <-]; now apply Hhere).
  - intros H. apply analyzeRoute_error_located in H as [Hs [rest Hrest]].
    split; [ exact Hs | ]. exists rest. rewrite Hrest. now rewrite <- app_assoc.
  - destruct (isDefineRoute ast [] f); simpl; [ | intros [= <-]; now apply Hhere ].
    destruct (Nat.eqb (length args) 1); simpl;
      [ | intros [= <-]; apply Hhere; simpl; tauto ].
    assert (Harg : forall e0,
              Err (A := Analysis)
                  (mkError msgArgumentObject ((path ++ [K_declaration]) ++ [K_arguments 0]))
              = Err e0 ->
              SchemaError e0 /\ exists rest, loc e0 = path ++ K_declaration :: rest).
    { intros e0 [= <-]. split; [ unfold SchemaError; simpl; tauto | ].
      exists [K_arguments 0]. simpl. now rewrite <- app_assoc. }
    destruct args as [ | arg rest]; [ apply Harg | ].
    destruct arg; try apply Harg.
    intros H. apply analyzeRoute_error_located in H as [Hs [rest' Hrest]].
    split; [ exact Hs | ]. exists (K_arguments 0 :: rest').
    rewrite Hrest. now rewrite <- !app_assoc.
Qed.

Lemma analyzeRouteExport_error_located_witness :
  SchemaError (mkError msgDefaultExport [K_body 1; K_declaration])
  /\ exists rest, [K_body 1; K_declaration] = [K_body 1] ++ K_declaration :: rest.
Proof.
  exact (@analyzeRouteExport_error_located defaultImported [K_body 1]
           (CallExpression (Identifier "defineRoute") [ObjectExpression []])
           (mkError msgDefaultExport [K_body 1; K_declaration]) eq_refl).
Defined.

(* ------------------------------------------------------------------------- *)
(** ** Which modules are accepted *)

Lemma analyzeRouteExport_ok_valid (ast : File) (path : NodePath) (route : expr) :
  is_ok (analyzeRouteExport ast path route) = validRoute ast route.
Proof.
  unfold analyzeRouteExport, validRoute, analyzeRoute.
  destruct route as [ | | | | props | f args | | ]; try reflexivity.
  - apply analyzeRouteFrom_ok_acceptable.
  - destruct args as [ | arg [ | arg' rest]].
    + now destruct (isDefineRoute ast [] f).
    + destruct (isDefineRoute ast [] f); simpl; destruct arg; try reflexivity.
      apply analyzeRouteFrom_ok_acceptable.
    + destruct (isDefineRoute ast [] f); simpl; destruct arg; reflexivity.
Qed.

Lemma fieldsFrom_ok (ast : File) (stmts : list statement) :
  forall (i : nat) (fields : list string),
    is_ok (fieldsFrom ast i stmts fields) = true
    <-> forall route, In (ExportDefaultDeclaration route) stmts ->
                      validRoute ast route = true.
Proof.
  induction stmts as [ | s stmts IH]; intros i fields; simpl.
  - split; [ intros _ route [] | reflexivity ].
  - assert (Hskip : (forall route, s <> ExportDefaultDeclaration route) ->
              (is_ok (fieldsFrom ast (S i) stmts fields) = true
               <-> forall route, s = ExportDefaultDeclaration route
                                 \/ In (ExportDefaultDeclaration route) stmts ->
                                 validRoute ast route = true)).
    { intros Hne. rewrite IH. split.
      - intros H route [Hs | Hin]; [ now elim (Hne route) | now apply H ].
      - intros H route Hin. apply H. now right. }
    destruct s as [ | | | route0 | ]; try (apply Hskip; discriminate).
    clear Hskip.
    pose proof (analyzeRouteExport_ok_valid ast [K_body i] route0) as Hvalid.
    destruct (analyzeRouteExport ast [K_body i] route0) as [a | e]; simpl in *.
    + rewrite IH. split.
      * intros H route [[= <-] | Hin]; [ now symmetry | now apply H ].
      * intros H route Hin. apply H. now right.
    + split; [ discriminate | ].
      intros H. rewrite (H route0 (or_introl eq_refl)) in Hvalid. discriminate.
Qed.

(** X5: [parseFields] returns a list exactly when the text parses, the misuse
    guard passes, and every default export of the module is an object literal
    of acceptable properties or a call of the factory with that one
    argument. *)
Theorem parseFields_ok_iff_valid :
  forall (parse : string -> option File) (code : string),
    (exists fields, parseFields parse code = Ok fields)
    <-> exists ast,
          parse code = Some ast
          /\ assertDefineRouteOnlyAfterExportDefault ast = Ok tt
          /\ forall route, In (ExportDefaultDeclaration route) ast ->
                           validRoute ast route = true.
Proof.
  intros parse code. unfold parseFields, parseOrThrow, parseFieldsAst.
  destruct (parse code) as [ast | ] eqn:Hparse; simpl.
  - pose proof (fieldsFrom_ok ast ast 0 []) as Hloop.
    destruct (assertDefineRouteOnlyAfterExportDefault ast) as [[] | e] eqn:Hguard; simpl.
    + destruct (fieldsFrom ast 0 ast []) as [fields | e]; simpl in *; split.
      * intros _. exists ast. split; [ reflexivity | ]. split; [ exact Hguard | ].
        now apply Hloop.
      * intros _. now exists fields.
      * intros [fields H]; discriminate.
      * intros (ast' & [= <-] & _ & H). apply Hloop in H. discriminate.
    + split; [ intros [fields H]; discriminate | ].
      intros (ast' & [= <-] & H & _). congruence.
  - split; [ intros [fields H]; discriminate | ].
    intros (ast' & H & _). discriminate.
Qed.

(* ------------------------------------------------------------------------- *)
(** ** [transform] and [parseFields] fail alike *)

Lemma loops_fail_alike (ast : File) (stmts : list statement) (e : CodeFrameError) :
  forall (i : nat) (marked : list NodePath) (fields : list string),
    markForRemovalFrom ast i stmts marked = Err e
    <-> fieldsFrom ast i stmts fields = Err e.
Proof.
  induction stmts as [ | s stmts IH]; intros i marked fields; simpl.
  - split; discriminate.
  - destruct s as [ | | | route | ]; try apply IH.
    destruct (analyzeRouteExport ast [K_body i] route); simpl; [ apply IH | ].
    split; intros [= <-]; reflexivity.
Qed.

(** X6: for the client target, [transform] throws exactly what [parseFields]
    throws on the same text: the syntax error, the error of the misuse guard,
    or the first error of the schema matcher. *)
Theorem transform_fails_as_parseFields :
  forall (SourceMap : Type) (parse : string -> option File)
         (generate : File -> string -> string -> string * SourceMap)
         (code id : string) (options : Options) (x : thrown),
    ssr options <> Some true ->
    (transform parse generate code id options = Err x
     <-> parseFields parse code = Err x).
Proof.
  intros SourceMap parse generate code id options x Hssr.
  assert (Hbody :
    (ast <- parseOrThrow parse code ;;
     ast' <- liftFrame (transformAst ast) ;;
     Ok (Generated (generate ast' id code))) = Err x
    <-> parseFields parse code = Err x).
  { unfold parseFields, parseOrThrow.
    destruct (parse code) as [ast | ]; simpl; [ | split; intros [= <-]; reflexivity ].
    unfold transformAst, parseFieldsAst.
    destruct (assertDefineRouteOnlyAfterExportDefault ast) as [[] | e]; simpl;
      [ | split; intros [= <-]; reflexivity ].
    unfold markForRemoval.
    destruct (markForRemovalFrom ast 0 ast []) as [marked | e] eqn:Hm;
      destruct (fieldsFrom ast 0 ast []) as [fields | e'] eqn:Hf; simpl.
    - split; discriminate.
    - apply (loops_fail_alike ast ast e' 0 [] []) in Hf. congruence.
    - apply (loops_fail_alike ast ast e 0 [] []) in Hm. congruence.
    - apply (loops_fail_alike ast ast e 0 [] []) in Hm.
      assert (e' = e) by congruence. subst.
      split; intros [= <-]; reflexivity. }
  unfold transform.
  destruct (ssr options) as [[ | ] | ]; [ now elim Hssr | exact Hbody | exact Hbody ].
Qed.

Lemma transform_fails_as_parseFields_witness :
  transform (parseOnly "export default wrap(defineRoute);" argumentUse) generateConst
    "export default wrap(defineRoute);" "route.ts" (mkOptions None)
  = Err (CodeFrame (mkError msgDefaultExport [K_body 1; K_declaration])).
Proof.
  apply (proj2 (@transform_fails_as_parseFields unit
                  (parseOnly "export default wrap(defineRoute);" argumentUse)
                  generateConst "export default wrap(defineRoute);" "route.ts"
                  (mkOptions None)
                  (CodeFrame (mkError msgDefaultExport [K_body 1; K_declaration]))
                  ltac:(discriminate))).
  reflexivity.
Defined.

(* ------------------------------------------------------------------------- *)
(** ** The misuse guard over the whole module *)

Lemma forEachIdentifier_all_ok {E} (visit : IdentifierPath -> result E unit)
    (l : list IdentifierPath) :
  (forall ip, In ip l -> visit ip = Ok tt) -> forEachIdentifier visit l = Ok tt.
Proof.
  induction l as [ | ip l IH]; intros H; simpl; [ reflexivity | ].
  rewrite (H ip (or_introl eq_refl)). simpl.
  apply IH. intros ip' Hin. apply H. now right.
Qed.

Lemma visitOnlyAfterExportDefault_ok (ast : File) (ip : IdentifierPath) :
  visitOnlyAfterExportDefault ast ip = Ok tt
  <-> (isDefineRoutePath ast ip = true -> allowedPosition ip = true).
Proof.
  unfold visitOnlyAfterExportDefault, allowedPosition.
  destruct (isDefineRoutePath ast ip); simpl;
    [ | split; intros; (reflexivity || discriminate) ].
  destruct (nodeType_eqb (ip_parent ip) TImportSpecifier); simpl;
    [ split; intros; reflexivity | ].
  destruct (nodeType_eqb (ip_parent ip) TCallExpression); simpl.
  - destruct (nodeType_eqb (ip_grandparent ip) TExportDefaultDeclaration); simpl.
    + split; intros; reflexivity.
    + split; [ discriminate | intros H; specialize (H eq_refl); discriminate ].
  - split; [ discriminate | intros H; specialize (H eq_refl); discriminate ].
Qed.

Lemma visitOnlyAfterExportDefault_err (ast : File) (ip : IdentifierPath)
    (e : CodeFrameError) :
  visitOnlyAfterExportDefault ast ip = Err e ->
  e = mkError msgAfterExportDefault (ip_path ip).
Proof.
  unfold visitOnlyAfterExportDefault.
  destruct (isDefineRoutePath ast ip); simpl; [ | discriminate ].
  destruct (nodeType_eqb (ip_parent ip) TImportSpecifier); simpl; [ discriminate | ].
  destruct (nodeType_eqb (ip_parent ip) TCallExpression); simpl.
  - destruct (nodeType_eqb (ip_grandparent ip) TExportDefaultDeclaration); simpl.
    + discriminate.
    + now intros [= <-].
  - now intros [= <-].
Qed.

(** X7: the misuse guard returns exactly when every identifier of the module
    that resolves to the factory is the name of an import specifier or a child
    of a call expression that is the declaration of a default export. *)
Theorem guard_ok_iff_allowed :
  forall (ast : File),
    assertDefineRouteOnlyAfterExportDefault ast = Ok tt
    <-> forall ip, In ip (identifiers ast) ->
                   isDefineRoutePath ast ip = true -> allowedPosition ip = true.
Proof.
  intros ast. unfold assertDefineRouteOnlyAfterExportDefault. split.
  - intros H ip Hin.
    apply visitOnlyAfterExportDefault_ok.
    exact (forEachIdentifier_ok _ _ H ip Hin).
  - intros H. apply forEachIdentifier_all_ok.
    intros ip Hin. apply visitOnlyAfterExportDefault_ok. now apply H.
Qed.

(** X8: when the misuse guard throws, the error carries the "must be a
    function call immediately after export default" message and is located at
    an identifier of the module that resolves to the factory and stands in a
    position that is not allowed. *)
Theorem guard_error_at_identifier :
  forall (ast : File) (e : CodeFrameError),
    assertDefineRouteOnlyAfterExportDefault ast = Err e ->
    MisuseError e
    /\ exists ip,
         In ip (identifiers ast) /\ loc e = ip_path ip
         /\ isDefineRoutePath ast ip = true /\ allowedPosition ip = false.
Proof.
  intros ast e H. unfold assertDefineRouteOnlyAfterExportDefault in H.
  apply forEachIdentifier_err in H as (ip & Hin & Hv).
  pose proof (visitOnlyAfterExportDefault_err _ _ Hv) as ->.
  split; [ reflexivity | ].
  exists ip. split; [ exact Hin | ]. split; [ reflexivity | ].
  destruct (isDefineRoutePath ast ip) eqn:Hd.
  - split; [ reflexivity | ].
    destruct (allowedPosition ip) eqn:Ha; [ | reflexivity ].
    assert (Hok : visitOnlyAfterExportDefault ast ip = Ok tt)
      by (apply visitOnlyAfterExportDefault_ok; intros _; exact Ha).
    congruence.
  - assert (Hok : visitOnlyAfterExportDefault ast ip = Ok tt)
      by (apply visitOnlyAfterExportDefault_ok; rewrite Hd; discriminate).
    congruence.
Qed.

Lemma guard_error_at_identifier_witness :
  MisuseError (mkError msgAfterExportDefault [K_body 1; K_init])
  /\ exists ip,
       In ip (identifiers assigned)
       /\ loc (mkError msgAfterExportDefault [K_body 1; K_init]) = ip_path ip
       /\ isDefineRoutePath assigned ip = true /\ allowedPosition ip = false.
Proof.
  exact (@guard_error_at_identifier assigned
           (mkError msgAfterExportDefault [K_body 1; K_init]) eq_refl).
Defined.

(** X9: a module that does not import [defineRoute] from [react-router]
    always passes the misuse guard, and none of its calls is accepted as a
    default export: only an object literal is. *)
Theorem without_import_only_object_literal :
  forall (ast : File),
    ~ importsDefineRoute ast ->
    assertDefineRouteOnlyAfterExportDefault ast = Ok tt
    /\ forall path f args,
         analyzeRouteExport ast path (CallExpression f args)
         = Err (mkError msgDefaultExport (path ++ [K_declaration])).
Proof.
  intros ast Hno.
  assert (Hnever : forall sc node, isDefineRoute ast sc node = false).
  { intros sc node. destruct (isDefineRoute ast sc node) eqn:Hd; [ | reflexivity ].
    elim Hno.
    apply (importsDefineRoute_of_path ast
             (mkIdentifierPath
                match node with Identifier x => x | _ => "" end [] TProgram TProgram sc true)).
    unfold isDefineRoutePath; simpl.
    destruct node; try discriminate. exact Hd. }
  split.
  - apply forEachIdentifier_all_ok. intros ip _.
    unfold visitOnlyAfterExportDefault, isDefineRoutePath. now rewrite Hnever.
  - intros path f args. simpl. now rewrite Hnever.
Qed.

Lemma without_import_only_object_literal_witness :
  assertDefineRouteOnlyAfterExportDefault defaultImported = Ok tt
  /\ forall path f args,
       analyzeRouteExport defaultImported path (CallExpression f args)
       = Err (mkError msgDefaultExport (path ++ [K_declaration])).
Proof.
  apply (@without_import_only_object_literal defaultImported).
  intros (specs & l & Hin & Hsp).
  simpl in Hin. destruct Hin as [[= <-] | [H | []]]; [ | discriminate ].
  simpl in Hsp. destruct Hsp as [H | []]. discriminate.
Defined.

(* ------------------------------------------------------------------------- *)
(** ** Resolution by binding, not by name *)

(** X10: the factory is recognised through its binding, whatever its local
    name: when the module imports it by the identifier [defineRoute] from
    [react-router] under the local name [l], as in
    [import { defineRoute as l } from "react-router"], the identifier [l]
    resolves to the factory in the program scope, and a default export
    [l({...})] is analysed as the object literal. *)
Theorem factory_recognised_under_alias :
  forall (ast : File) (specs : list specifier) (l : string)
         (path : NodePath) (props : list (property expr)),
    uniqueBindings ast ->
    In (ImportDeclaration specs "react-router") ast ->
    In (ImportSpecifier (ImportedIdentifier "defineRoute") l) specs ->
    isDefineRoute ast [] (Identifier l) = true
    /\ analyzeRouteExport ast path (CallExpression (Identifier l) [ObjectExpression props])
       = analyzeRoute ((path ++ [K_declaration]) ++ [K_arguments 0]) props.
Proof.
  intros ast specs l path props Huniq Hin Hsp.
  assert (Hd : isDefineRoute ast [] (Identifier l) = true).
  { apply isDefineRoute_spec. exists l. split; [ reflexivity | ].
    simpl. apply lookup_NoDup; [ exact Huniq | ].
    unfold programBindings. apply in_flat_map.
    exists (ImportDeclaration specs "react-router"). split; [ exact Hin | ].
    simpl. apply in_map_iff.
    exists (ImportSpecifier (ImportedIdentifier "defineRoute") l).
    split; [ reflexivity | exact Hsp ]. }
  split; [ exact Hd | ].
  unfold analyzeRouteExport. now rewrite Hd.
Qed.

Lemma factory_recognised_under_alias_witness :
  isDefineRoute aliased [] (Identifier "route") = true
  /\ analyzeRouteExport aliased [K_body 1]
       (CallExpression (Identifier "route") [ObjectExpression [ field "Component" (thunk 1) ]])
     = analyzeRoute (([K_body 1] ++ [K_declaration]) ++ [K_arguments 0])
         [ field "Component" (thunk 1) ].
Proof.
  apply (@factory_recognised_under_alias aliased
           [ImportSpecifier (ImportedIdentifier "defineRoute") "route"] "route"
           [K_body 1] [ field "Component" (thunk 1) ]).
  - unfold uniqueBindings; simpl. constructor; [ simpl; tauto | constructor ].
  - simpl; now left.
  - simpl; now left.
Defined.

(** X11: a name that a parameter of an enclosing function binds is never the
    factory, even when the module imports the factory under that name. *)
Theorem shadowed_name_is_not_factory :
  forall (ast : File) (sc : scope) (name : string),
    existsb (mem name) sc = true ->
    isDefineRoute ast sc (Identifier name) = false.
Proof.
  intros ast sc name Hshadow.
  assert (Hb : getBinding ast sc name
               = Some (mkBinding NParam (POther TArrowFunctionExpression))).
  { induction sc as [ | frame sc IH]; simpl in *; [ discriminate | ].
    destruct (mem name frame); [ reflexivity | now apply IH ]. }
  unfold isDefineRoute. now rewrite Hb.
Qed.

Lemma shadowed_name_is_not_factory_witness :
  isDefineRoute unusedImport [["x"]; ["defineRoute"]] (Identifier "defineRoute") = false.
Proof.
  apply (@shadowed_name_is_not_factory unusedImport [["x"]; ["defineRoute"]] "defineRoute").
  reflexivity.
Defined.

(* ------------------------------------------------------------------------- *)
(** ** The list of fields has no repetition *)

Lemma firstOccurrencesFrom_In (l : list string) :
  forall seen x, In x (firstOccurrencesFrom seen l) -> In x l /\ mem x seen = false.
Proof.
  induction l as [ | y l IH]; intros seen x; simpl; [ tauto | ].
  destruct (mem y seen) eqn:Hy.
  - intros H. destruct (IH _ _ H). split; [ now right | assumption ].
  - intros [<- | H]; [ split; [ now left | exact Hy ] | ].
    destruct (IH _ _ H) as [Hin Hmem]. split; [ now right | ].
    unfold mem in *. simpl in Hmem. now apply orb_false_iff in Hmem as [_ Hmem].
Qed.

Lemma firstOccurrencesFrom_NoDup (l : list string) :
  forall seen, NoDup (firstOccurrencesFrom seen l).
Proof.
  induction l as [ | y l IH]; intros seen; simpl; [ constructor | ].
  destruct (mem y seen); [ apply IH | ].
  constructor; [ | apply IH ].
  intros H. apply firstOccurrencesFrom_In in H as [_ Hmem].
  unfold mem in Hmem. simpl in Hmem. now rewrite String.eqb_refl in Hmem.
Qed.

(** X12: the list that [parseFields] returns names no field twice, and never
    contains [__proto__]. *)
Theorem parseFields_no_repetition :
  forall (parse : string -> option File) (code : string) (fields : list string),
    parseFields parse code = Ok fields ->
    NoDup fields /\ ~ In "__proto__" fields.
Proof.
  intros parse code fields Hrun.
  unfold parseFields, parseOrThrow in Hrun.
  destruct (parse code) as [ast | ]; simpl in Hrun; [ | discriminate ].
  unfold parseFieldsAst in Hrun.
  destruct (assertDefineRouteOnlyAfterExportDefault ast); simpl in Hrun; [ | discriminate ].
  destruct (fieldsFrom ast 0 ast []) as [r | e] eqn:Hfields; simpl in Hrun; [ | discriminate ].
  injection Hrun as <-.
  apply fieldsFrom_keys in Hfields.
  destruct (lastExport ast) as [route | ]; subst r.
  - split; [ apply firstOccurrencesFrom_NoDup | ].
    intros H. apply firstOccurrencesFrom_In in H as [H _].
    apply filter_In in H as [_ H]. discriminate.
  - split; [ constructor | intros [] ].
Qed.

Lemma parseFields_no_repetition_witness :
  NoDup ["Component"; "headers"] /\ ~ In "__proto__" ["Component"; "headers"].
Proof.
  exact (@parseFields_no_repetition (parseOnly withHeadersText withHeaders)
           withHeadersText ["Component"; "headers"] eq_refl).
Defined.

(* ------------------------------------------------------------------------- *)
(** ** A module without server-only fields is left as it is *)

Lemma shouldBeRemoved_referenced (ast : File) (name : string) :
  shouldBeRemoved ast (findReferencedIdentifiers ast) name = false.
Proof.
  unfold shouldBeRemoved, findReferencedIdentifiers.
  destruct (mem name _) eqn:Hmem; [ | reflexivity ]. simpl.
  unfold mem in Hmem. apply existsb_exists in Hmem as (x & Hx & Heq).
  apply String.eqb_eq in Heq. subst x.
  apply filter_In in Hx as [_ Hx]. now rewrite Hx.
Qed.

Lemma filter_all {A} (f : A -> bool) (l : list A) :
  (forall x, f x = true) -> filter f l = l.
Proof.
  intros H. induction l as [ | x l IH]; simpl; [ reflexivity | ].
  now rewrite H, IH.
Qed.

Lemma filter_none {A} (f : A -> bool) (l : list A) :
  (forall x, In x l -> f x = false) -> filter f l = [].
Proof.
  induction l as [ | x l IH]; intros H; simpl; [ reflexivity | ].
  rewrite (H x (or_introl eq_refl)). apply IH. intros y Hy. apply H. now right.
Qed.

Lemma sweep_nothing_to_remove (t : File) (c : list string) (l : list statement) :
  (forall name, shouldBeRemoved t c name = false) ->
  flat_map (sweepStatement t c) l = l.
Proof.
  intros Hkeep. induction l as [ | s l IH]; simpl; [ reflexivity | ].
  rewrite IH.
  destruct s as [specs source | x e | f ps b | e | e]; simpl;
    try rewrite Hkeep; try reflexivity.
  rewrite filter_all by (intros sp; now rewrite Hkeep).
  now destruct specs.
Qed.

(** Dead-code elimination with the reference set of the very tree it is given
    removes nothing. *)
Lemma deadCodeElimination_same_tree (ast : File) :
  deadCodeElimination ast (findReferencedIdentifiers ast) = ast.
Proof.
  unfold deadCodeElimination. simpl. unfold sweep.
  rewrite sweep_nothing_to_remove by apply shouldBeRemoved_referenced.
  now rewrite Nat.eqb_refl.
Qed.

Lemma markedOf_nil (ast : File) (path : NodePath) (route : expr) (a : Analysis) :
  analyzeRouteExport ast path route = Ok a ->
  (forall k, In k (keyNames (routeProperties route)) -> serverOnly k = false) ->
  markedOf a = [].
Proof.
  intros Hrun Hnone. unfold markedOf. rewrite filter_none; [ reflexivity | ].
  intros [k v] Hin. simpl. apply Hnone.
  assert (Hk : In k (keysOf a)) by (unfold keysOf; apply in_map_iff; now exists (k, v)).
  rewrite (analyzeRouteExport_keys _ _ _ Hrun) in Hk.
  apply firstOccurrencesFrom_In in Hk as [Hk _].
  now apply filter_In in Hk as [Hk _].
Qed.

Lemma markForRemovalFrom_nothing (ast : File) (stmts : list statement) :
  forall (i : nat) (m0 marked : list NodePath),
    markForRemovalFrom ast i stmts m0 = Ok marked ->
    (forall route k, In (ExportDefaultDeclaration route) stmts ->
                     In k (keyNames (routeProperties route)) -> serverOnly k = false) ->
    marked = m0.
Proof.
  induction stmts as [ | s stmts IH]; intros i m0 marked Hrun Hnone; simpl in Hrun.
  - congruence.
  - assert (Hrest : forall route k, In (ExportDefaultDeclaration route) stmts ->
                      In k (keyNames (routeProperties route)) -> serverOnly k = false)
      by (intros route k Hin; apply Hnone; now right).
    destruct s as [ | | | route0 | ]; try (now apply (IH _ _ _ Hrun Hrest)).
    destruct (analyzeRouteExport ast [K_body i] route0) as [a | e] eqn:Ha;
      simpl in Hrun; [ | discriminate ].
    rewrite (markedOf_nil _ _ _ Ha) in Hrun
      by (intros k; apply Hnone; now left).
    rewrite app_nil_r in Hrun. now apply (IH _ _ _ Hrun Hrest).
Qed.

Lemma transformAst_noop (ast : File) :
  (exists out, transformAst ast = Ok out) ->
  (forall route k, In (ExportDefaultDeclaration route) ast ->
                   In k (keyNames (routeProperties route)) -> serverOnly k = false) ->
  transformAst ast = Ok ast.
Proof.
  intros [out Hrun] Hnone.
  rewrite Hrun. f_equal.
  unfold transformAst in Hrun.
  destruct (assertDefineRouteOnlyAfterExportDefault ast); simpl in Hrun; [ | discriminate ].
  destruct (markForRemoval ast) as [marked | e] eqn:Hmark; simpl in Hrun; [ | discriminate ].
  injection Hrun as <-.
  apply (markForRemovalFrom_nothing ast ast 0 []) in Hmark; [ | exact Hnone ].
  subst marked. unfold removeMarked. rewrite removeMarkedFrom_nil.
  apply deadCodeElimination_same_tree.
Qed.

(** X13: when no default export of the module has a field named [headers],
    [serverLoader] or [serverAction], the tree that the client transform hands
    to the generator is the tree that was parsed: no property is removed and
    no declaration is eliminated, not even one that nothing refers to. *)
Theorem transform_noop_without_server_fields :
  forall (ast : File),
    (exists out, transformAst ast = Ok out) ->
    (forall route k, In (ExportDefaultDeclaration route) ast ->
                     In k (keyNames (routeProperties route)) -> serverOnly k = false) ->
    transformAst ast = Ok ast.
Proof.
  intros ast Hrun Hnone. now apply transformAst_noop.
Qed.

Lemma transform_noop_without_server_fields_witness :
  transformAst clientOnly = Ok clientOnly.
Proof.
  apply (@transform_noop_without_server_fields clientOnly).
  - exists clientOnly. reflexivity.
  - intros route k [H | [H | []]]; [ discriminate | ].
    injection H as <-. simpl.
    intros [<- | []]. reflexivity.
Defined.

(* ------------------------------------------------------------------------- *)
(** ** The client transform removes server-only fields only *)

Lemma step_eqb_eq (a b : step) : step_eqb a b = true -> a = b.
Proof.
  destruct a, b; simpl; try discriminate; try reflexivity;
    intros H; apply Nat.eqb_eq in H; now subst.
Qed.

Lemma path_eqb_eq (p : NodePath) : forall q, path_eqb p q = true -> p = q.
Proof.
  induction p as [ | a p IH]; intros [ | b q]; simpl; try discriminate; [ reflexivity | ].
  intros H. apply andb_true_iff in H as [Hab Hpq].
  apply step_eqb_eq in Hab. apply IH in Hpq. now subst.
Qed.

Lemma analyzeRouteExport_entries (ast : File) (j : nat) (route : expr) (a : Analysis)
    (k : string) (v : NodePath) :
  analyzeRouteExport ast [K_body j] route = Ok a ->
  In (k, v) (own a) ->
  exists n p, nth_error (routeProperties route) n = Some p /\ keyName p = Some k
              /\ v = routeObjectPath j route ++ [K_properties n].
Proof.
  unfold analyzeRouteExport, analyzeRoute.
  destruct route as [ | | | | props | f args | | ]; try discriminate.
  - intros Hrun Hin.
    destruct (analyzeRouteFrom_entries _ _ _ _ _ _ Hrun Hin) as [[] | H]. exact H.
  - destruct (isDefineRoute ast [] f); simpl; [ | discriminate ].
    destruct (Nat.eqb (length args) 1); simpl; [ | discriminate ].
    destruct args as [ | arg rest]; [ discriminate | ].
    destruct arg; try discriminate.
    intros Hrun Hin.
    destruct (analyzeRouteFrom_entries _ _ _ _ _ _ Hrun Hin) as [[] | H]. exact H.
Qed.

(** Every marked path comes from the analysis of a default export. *)
Lemma markForRemovalFrom_origin (ast : File) (stmts : list statement) :
  forall (i : nat) (m0 marked : list NodePath) (q : NodePath),
    markForRemovalFrom ast i stmts m0 = Ok marked ->
    In q marked ->
    In q m0
    \/ exists j route a,
         nth_error stmts j = Some (ExportDefaultDeclaration route)
         /\ analyzeRouteExport ast [K_body (i + j)] route = Ok a
         /\ In q (markedOf a).
Proof.
  induction stmts as [ | s stmts IH]; intros i m0 marked q Hrun Hin; simpl in Hrun.
  - injection Hrun as <-. now left.
  - assert (Hshift : forall m,
              markForRemovalFrom ast (S i) stmts m = Ok marked ->
              In q m
              \/ exists j route a,
                   nth_error (s :: stmts) j = Some (ExportDefaultDeclaration route)
                   /\ analyzeRouteExport ast [K_body (i + j)] route = Ok a
                   /\ In q (markedOf a)).
    { intros m Hm. destruct (IH _ _ _ _ Hm Hin) as [H | (j & route & a & Hj & Ha & Hq)].
      - now left.
      - right. exists (S j), route, a. rewrite <- Nat.add_succ_comm. now repeat split. }
    destruct s as [ | | | route0 | ]; try (now apply Hshift).
    destruct (analyzeRouteExport ast [K_body i] route0) as [a0 | e] eqn:Ha0;
      simpl in Hrun; [ | discriminate ].
    destruct (Hshift _ Hrun) as [H | H]; [ | now right ].
    apply in_app_or in H as [H | H]; [ now left | ].
    right. exists 0, route0, a0. rewrite Nat.add_0_r. now repeat split.
Qed.

Lemma removePropertiesFrom_keeps (marked : list NodePath) (objectPath : NodePath)
    (props : list (property expr)) :
  forall (i n : nat) (p : property expr),
    nth_error props n = Some p ->
    isMarked marked (objectPath ++ [K_properties (i + n)]) = false ->
    In p (removePropertiesFrom marked objectPath i props).
Proof.
  induction props as [ | p0 props IH]; intros i n p Hn Hnot.
  - destruct n; discriminate.
  - simpl. destruct n as [ | n]; simpl in Hn.
    + injection Hn as <-. rewrite Nat.add_0_r in Hnot. rewrite Hnot. now left.
    + rewrite <- Nat.add_succ_comm in Hnot.
      destruct (isMarked marked (objectPath ++ [K_properties i]));
        [ | right ]; now apply (IH (S i) n p).
Qed.

Lemma eliminate_keeps_exports (c : list string) (r : expr) :
  forall (fuel : nat) (t : File),
    In (ExportDefaultDeclaration r) t ->
    In (ExportDefaultDeclaration r) (eliminate fuel t c).
Proof.
  assert (Hsweep : forall t, In (ExportDefaultDeclaration r) t ->
                             In (ExportDefaultDeclaration r) (sweep t c)).
  { intros t H. unfold sweep. apply in_flat_map.
    exists (ExportDefaultDeclaration r). split; [ exact H | now left ]. }
  induction fuel as [ | fuel IH]; intros t H; simpl; [ exact H | ].
  destruct (Nat.eqb _ _); [ now apply Hsweep | now apply IH, Hsweep ].
Qed.

Lemma removeMarkedFrom_nth (marked : list NodePath) (ast : File) :
  forall (i j : nat) (s : statement),
    nth_error ast j = Some s ->
    In (removeMarkedIn marked (i + j) s) (removeMarkedFrom marked i ast).
Proof.
  induction ast as [ | s0 ast IH]; intros i j s Hj.
  - destruct j; discriminate.
  - simpl. destruct j as [ | j]; simpl in Hj.
    + injection Hj as <-. rewrite Nat.add_0_r. now left.
    + right. rewrite <- Nat.add_succ_comm. now apply IH.
Qed.

Lemma removeMarkedIn_properties (marked : list NodePath) (j : nat) (route : expr) :
  exists route',
    removeMarkedIn marked j (ExportDefaultDeclaration route)
    = ExportDefaultDeclaration route'
    /\ routeProperties route'
       = removePropertiesFrom marked (routeObjectPath j route) 0 (routeProperties route).
Proof.
  destruct route as [ | | | | props | f args | | ];
    try (eexists; split; reflexivity).
  destruct args as [ | arg rest]; [ eexists; split; reflexivity | ].
  destruct arg; eexists; split; reflexivity.
Qed.

(** A property whose name is not server-only is not among the paths that
    [transform] marks for removal. *)
Lemma other_field_not_marked (ast : File) (marked : list NodePath) (j n : nat)
    (route : expr) (p : property expr) (k : string) :
  markForRemoval ast = Ok marked ->
  nth_error ast j = Some (ExportDefaultDeclaration route) ->
  nth_error (routeProperties route) n = Some p ->
  keyName p = Some k ->
  serverOnly k = false ->
  isMarked marked (routeObjectPath j route ++ [K_properties n]) = false.
Proof.
  intros Hmark Hj Hn Hk Hs.
  destruct (isMarked marked _) eqn:Hm; [ exfalso | reflexivity ].
  unfold isMarked in Hm. apply existsb_exists in Hm as (q & Hq & Heq).
  apply path_eqb_eq in Heq. subst q.
  destruct (@markForRemovalFrom_origin ast ast 0 [] marked _ Hmark Hq)
    as [[] | (j' & route' & a' & Hj' & Ha' & Hq')].
  simpl in Ha'.
  unfold markedOf, entriesOf in Hq'.
  apply in_map_iff in Hq' as ([k' v'] & Hv' & Hin'). simpl in Hv'. subst v'.
  apply filter_In in Hin' as [Hin' Hs']. simpl in Hs'.
  destruct (@analyzeRouteExport_entries ast j' route' a' k' _ Ha' Hin')
    as (n' & p' & Hn' & Hk' & Hpath).
  assert (Hsame : j = j' /\ n = n').
  { destruct route, route'; simpl in Hpath; try discriminate;
      injection Hpath; auto. }
  destruct Hsame as [<- <-].
  assert (route' = route) by congruence. subst route'.
  assert (p' = p) by congruence. subst p'.
  assert (k' = k) by congruence. subst k'.
  congruence.
Qed.

(** X14: the client transform never removes a field whose name is not
    [headers], [serverLoader] or [serverAction]: every such property of a
    default export of the module is a property of a default export of the
    tree handed to the generator. *)
Theorem transform_keeps_other_fields :
  forall (ast out : File) (route : expr) (p : property expr) (k : string),
    transformAst ast = Ok out ->
    In (ExportDefaultDeclaration route) ast ->
    In p (routeProperties route) ->
    keyName p = Some k ->
    serverOnly k = false ->
    exists route',
      In (ExportDefaultDeclaration route') out /\ In p (routeProperties route').
Proof.
  intros ast out route p k Hrun Hroute Hp Hk Hs.
  unfold transformAst in Hrun.
  destruct (assertDefineRouteOnlyAfterExportDefault ast); simpl in Hrun; [ | discriminate ].
  destruct (markForRemoval ast) as [marked | e] eqn:Hmark; simpl in Hrun; [ | discriminate ].
  injection Hrun as <-.
  apply In_nth_error in Hroute as [j Hj].
  apply In_nth_error in Hp as [n Hn].
  destruct (removeMarkedIn_properties marked j route) as (route' & Hrem & Hprops).
  exists route'. split.
  - unfold deadCodeElimination. apply eliminate_keeps_exports.
    unfold removeMarked. rewrite <- Hrem.
    apply (@removeMarkedFrom_nth marked ast 0 j _ Hj).
  - rewrite Hprops.
    apply (@removePropertiesFrom_keeps marked (routeObjectPath j route)
             (routeProperties route) 0 n p Hn).
    apply (@other_field_not_marked ast marked j n route p k Hmark Hj Hn Hk Hs).
Qed.

Lemma transform_keeps_other_fields_witness :
  exists route',
    In (ExportDefaultDeclaration route') componentOnly
    /\ In (field "Component" (ArrowFunctionExpression [] (Identifier "label")))
          (routeProperties route').
Proof.
  apply (@transform_keeps_other_fields loaderAndComponent componentOnly
           (ObjectExpression
              [ field "serverLoader" (ArrowFunctionExpression [] (Identifier "db"));
                field "Component" (ArrowFunctionExpression [] (Identifier "label")) ])
           (field "Component" (ArrowFunctionExpression [] (Identifier "label")))
           "Component").
  - reflexivity.
  - simpl. right; right; now left.
  - simpl. right; now left.
  - reflexivity.
  - reflexivity.
Defined.

(** X15: when no server-only name occurs twice among the keys of a default
    export, the client transform generates a tree in which no default export
    has a property named [headers], [serverLoader] or [serverAction]. *)
Theorem transform_strips_fields_occurring_once :
  forall (SourceMap : Type) (parse : string -> option File)
         (generate : File -> string -> string -> string * SourceMap)
         (code id : string) (options : Options) (ast : File) (o : Output SourceMap),
    ssr options <> Some true ->
    parse code = Some ast ->
    (forall route, In (ExportDefaultDeclaration route) ast ->
                   NoDup (filter serverOnly (keyNames (routeProperties route)))) ->
    transform parse generate code id options = Ok o ->
    exists out,
      o = Generated (generate out id code)
      /\ forall route' p,
           In (ExportDefaultDeclaration route') out ->
           In p (routeProperties route') ->
           serverOnlyProperty p = false.
Proof.
  intros SourceMap parse generate code id options ast o Hssr Hparse Hnd Hrun.
  assert (Hbody :
    (ast0 <- parseOrThrow parse code ;;
     ast' <- liftFrame (transformAst ast0) ;;
     Ok (Generated (generate ast' id code))) = Ok o).
  { unfold transform in Hrun.
    destruct (ssr options) as [[ | ] | ]; [ now elim Hssr | exact Hrun | exact Hrun ]. }
  unfold parseOrThrow in Hbody. rewrite Hparse in Hbody. simpl in Hbody.
  destruct (transformAst ast) as [out | e] eqn:Hout; simpl in Hbody; [ | discriminate ].
  injection Hbody as <-.
  exists out. split; [ reflexivity | ].
  intros route' p Hroute Hp.
  unfold serverOnlyProperty.
  destruct (keyName p) as [k | ] eqn:Hk; [ | reflexivity ].
  apply (@transformAst_strips_unique ast out Hout Hnd route' k Hroute).
  now apply (keyNames_In (routeProperties route') p).
Qed.

Lemma transform_strips_fields_occurring_once_witness :
  exists out,
    Generated (generateConst componentOnly "route.ts" "loader") = Generated (generateConst out "route.ts" "loader")
    /\ forall route' p,
         In (ExportDefaultDeclaration route') out ->
         In p (routeProperties route') ->
         serverOnlyProperty p = false.
Proof.
  apply (@transform_strips_fields_occurring_once unit
           (parseOnly "loader" loaderAndComponent) generateConst
           "loader" "route.ts" (mkOptions (Some false)) loaderAndComponent).
  - discriminate.
  - reflexivity.
  - intros route [H | [H | [H | []]]]; try discriminate.
    injection H as <-. simpl.
    constructor; [ simpl; tauto | constructor ].
  - reflexivity.
Defined.

(* ------------------------------------------------------------------------- *)
(** ** Identifiers, apart from their location *)

(** Induction on expressions, with the hypothesis for every expression below
    a list. *)
Lemma expr_nested_ind (P : expr -> Prop) :
  (forall x, P (Identifier x)) ->
  (forall v, P (StringLiteral v)) ->
  (forall v, P (NumericLiteral v)) ->
  (forall els,
      Forall (fun el => match el with Some a => P a | None => True end) els ->
      P (ArrayExpression els)) ->
  (forall props,
      Forall (fun prop => match prop with
                          | ObjectProperty k _ v => P k /\ P v
                          | ObjectMethod k _ _ b => P k /\ P b
                          | SpreadElement a => P a
                          end) props ->
      P (ObjectExpression props)) ->
  (forall f args, P f -> Forall P args -> P (CallExpression f args)) ->
  (forall o x, P o -> P (MemberExpression o x)) ->
  (forall ps b, P b -> P (ArrowFunctionExpression ps b)) ->
  forall e, P e.
Proof.
  intros HId HStr HNum HArr HObj HCall HMem HArrow.
  fix IH 1. intros e. destruct e as [x | v | v | els | props | f args | o x | ps b].
  - apply HId.
  - apply HStr.
  - apply HNum.
  - apply HArr. induction els as [ | el els IHl]; constructor; [ | exact IHl ].
    destruct el as [a | ]; [ apply IH | exact I ].
  - apply HObj. induction props as [ | prop props IHl]; constructor; [ | exact IHl ].
    destruct prop as [k c v | k c ps b | a]; [ split; apply IH | split; apply IH | apply IH ].
  - apply HCall; [ apply IH | ].
    induction args as [ | a args IHl]; constructor; [ apply IH | exact IHl ].
  - apply HMem. apply IH.
  - apply HArrow. apply IH.
Qed.

Lemma map_flat_mapi_from_ext {A B C} (h : B -> C) (f g : nat -> A -> list B) (l : list A) :
  (forall i j x, In x l -> map h (f i x) = map h (g j x)) ->
  forall i j, map h (flat_mapi_from f i l) = map h (flat_mapi_from g j l).
Proof.
  induction l as [ | x l IH]; intros Hext i j; simpl; [ reflexivity | ].
  rewrite !map_app. rewrite (Hext i j x (or_introl eq_refl)).
  f_equal. apply IH. intros i' j' y Hy. apply Hext. now right.
Qed.

Lemma paramPaths_unlocated (sc : scope) (p q : NodePath) (par gpar : nodeType)
    (ps : list string) :
  map unlocated (paramPaths sc p par gpar ps) = map unlocated (paramPaths sc q par gpar ps).
Proof.
  unfold paramPaths, flat_mapi. apply map_flat_mapi_from_ext. reflexivity.
Qed.

(** The identifiers below an expression do not depend on where the expression
    lies, except for their paths. *)
Lemma identifiersOfExpr_unlocated (e : expr) :
  forall (sc : scope) (p q : NodePath) (par gpar : nodeType),
    map unlocated (identifiersOfExpr sc p par gpar e)
    = map unlocated (identifiersOfExpr sc q par gpar e).
Proof.
  induction e using expr_nested_ind; intros sc p q par gpar; simpl; try reflexivity.
  - unfold flat_mapi. apply map_flat_mapi_from_ext.
    intros i j el Hel. rewrite Forall_forall in H. specialize (H el Hel).
    destruct el as [a | ]; [ apply H | reflexivity ].
  - unfold flat_mapi. apply map_flat_mapi_from_ext.
    intros i j prop Hprop. rewrite Forall_forall in H. specialize (H prop Hprop).
    destruct prop as [k c v | k c ps b | a].
    + destruct H as [Hk Hv]. rewrite !map_app. f_equal; [ | apply Hv ].
      destruct k, c; try reflexivity; apply Hk.
    + destruct H as [Hk Hb]. rewrite !map_app. f_equal; [ | f_equal ].
      * destruct k, c; try reflexivity; apply Hk.
      * apply paramPaths_unlocated.
      * apply Hb.
    + apply H.
  - rewrite !map_app. f_equal; [ apply IHe | ].
    unfold flat_mapi. apply map_flat_mapi_from_ext.
    intros i j a Ha. rewrite Forall_forall in H. now apply H.
  - rewrite !map_app. f_equal. apply IHe.
  - rewrite !map_app. f_equal; [ apply paramPaths_unlocated | apply IHe ].
Qed.

Lemma identifiersOfExpr_object (sc : scope) (p : NodePath) (par gpar : nodeType)
    (props : list (property expr)) :
  identifiersOfExpr sc p par gpar (ObjectExpression props)
  = flat_mapi (fun i prop => identifiersOfProperty sc (p ++ [K_properties i]) prop) props.
Proof. reflexivity. Qed.

Lemma identifiersOfProperty_unlocated (sc : scope) (q q' : NodePath)
    (prop : property expr) :
  map unlocated (identifiersOfProperty sc q prop)
  = map unlocated (identifiersOfProperty sc q' prop).
Proof.
  destruct prop as [k c v | k c ps b | a]; simpl.
  - rewrite !map_app. f_equal; [ | apply identifiersOfExpr_unlocated ].
    destruct k, c; try reflexivity; apply identifiersOfExpr_unlocated.
  - rewrite !map_app. f_equal; [ | f_equal ].
    + destruct k, c; try reflexivity; apply identifiersOfExpr_unlocated.
    + apply paramPaths_unlocated.
    + apply identifiersOfExpr_unlocated.
  - apply identifiersOfExpr_unlocated.
Qed.

(** The identifiers of an object literal with fewer properties are among
    those of the object literal. *)
Lemma object_unlocated_incl (sc : scope) (p q : NodePath) (par gpar : nodeType)
    (props' props : list (property expr)) :
  incl props' props ->
  incl (map unlocated (identifiersOfExpr sc p par gpar (ObjectExpression props')))
       (map unlocated (identifiersOfExpr sc q par gpar (ObjectExpression props))).
Proof.
  intros Hincl u Hu. rewrite identifiersOfExpr_object in *.
  apply in_map_iff in Hu as (ip & <- & Hip).
  unfold flat_mapi in Hip. apply In_flat_mapi_from in Hip as (j & prop & Hj & Hip).
  apply nth_error_In, Hincl, In_nth_error in Hj as [j' Hj'].
  assert (Hin : In (unlocated ip)
                  (map unlocated (identifiersOfProperty sc (q ++ [K_properties (0 + j')]) prop))).
  { rewrite (identifiersOfProperty_unlocated sc _ (p ++ [K_properties (0 + j)]) prop).
    now apply in_map. }
  apply in_map_iff in Hin as (ip' & Heq & Hip'). rewrite <- Heq.
  apply in_map. unfold flat_mapi. apply In_flat_mapi_from. now exists j', prop.
Qed.

Lemma identifiersOfSpecifier_unlocated (p q : NodePath) (sp : specifier) :
  map unlocated (identifiersOfSpecifier p sp) = map unlocated (identifiersOfSpecifier q sp).
Proof. destruct sp as [[] l | l | l]; reflexivity. Qed.

Lemma identifiersOfStatement_unlocated (i : nat) (s : statement) :
  map unlocated (identifiersOfStatement i s) = unlocatedOfStatement s.
Proof.
  unfold unlocatedOfStatement.
  destruct s as [specs source | x e | f ps b | e | e]; simpl.
  - unfold flat_mapi. apply map_flat_mapi_from_ext.
    intros j j' sp _. apply identifiersOfSpecifier_unlocated.
  - f_equal. apply identifiersOfExpr_unlocated.
  - f_equal. rewrite !map_app. f_equal; [ apply paramPaths_unlocated | ].
    apply identifiersOfExpr_unlocated.
  - apply identifiersOfExpr_unlocated.
  - apply identifiersOfExpr_unlocated.
Qed.

Lemma identifiers_unlocated (t : File) :
  map unlocated (identifiers t) = flat_map unlocatedOfStatement t.
Proof.
  unfold identifiers, flat_mapi. generalize 0.
  induction t as [ | s t IH]; intros i; simpl; [ reflexivity | ].
  now rewrite map_app, identifiersOfStatement_unlocated, IH.
Qed.

(* ------------------------------------------------------------------------- *)
(** ** What removal and elimination leave of the identifiers and bindings *)

Lemma removePropertiesFrom_incl (marked : list NodePath) (objectPath : NodePath)
    (props : list (property expr)) (i : nat) :
  incl (removePropertiesFrom marked objectPath i props) props.
Proof.
  intros p Hp. apply removePropertiesFrom_In in Hp as (n & Hn & _).
  now apply nth_error_In in Hn.
Qed.

Lemma removeMarkedIn_unlocated_incl (marked : list NodePath) (i : nat) (s : statement) :
  incl (unlocatedOfStatement (removeMarkedIn marked i s)) (unlocatedOfStatement s).
Proof.
  unfold unlocatedOfStatement.
  destruct s as [ | | | e | ]; try apply incl_refl.
  destruct e as [ | | | | props | f args | | ]; try apply incl_refl.
  - simpl removeMarkedIn. cbn [identifiersOfStatement].
    apply object_unlocated_incl, removePropertiesFrom_incl.
  - destruct args as [ | arg rest]; [ apply incl_refl | ].
    destruct arg; try apply incl_refl.
    simpl removeMarkedIn. cbn [identifiersOfStatement identifiersOfExpr].
    unfold flat_mapi. cbn [flat_mapi_from].
    rewrite !map_app. apply incl_app; [ now apply incl_appl, incl_refl | ].
    apply incl_appr. apply incl_app; [ | now apply incl_appr, incl_refl ].
    apply incl_appl.
    apply object_unlocated_incl, removePropertiesFrom_incl.
Qed.

Lemma removeMarked_unlocated_incl (marked : list NodePath) (ast : File) :
  incl (flat_map unlocatedOfStatement (removeMarked marked ast))
       (flat_map unlocatedOfStatement ast).
Proof.
  unfold removeMarked. generalize 0.
  induction ast as [ | s ast IH]; intros i; simpl; [ apply incl_refl | ].
  apply incl_app.
  - apply incl_appl, removeMarkedIn_unlocated_incl.
  - apply incl_appr, IH.
Qed.

Lemma sweepStatement_unlocated_incl (t : File) (c : list string) (s s' : statement) :
  In s' (sweepStatement t c s) ->
  incl (unlocatedOfStatement s') (unlocatedOfStatement s).
Proof.
  destruct s as [specs source | x e | f ps b | e | e]; simpl.
  - set (keep := fun sp => negb (shouldBeRemoved t c (specifierLocal sp))).
    destruct (filter keep specs) as [ | sp kept] eqn:Hk.
    + destruct specs; [ intros [<- | []]; apply incl_refl | intros [] ].
    + intros [<- | []]. rewrite <- Hk.
      unfold unlocatedOfStatement. simpl.
      intros u Hu. apply in_map_iff in Hu as (ip & <- & Hip).
      unfold flat_mapi in Hip. apply In_flat_mapi_from in Hip as (j & sp' & Hj & Hip).
      apply nth_error_In, filter_In in Hj as [Hj _].
      apply In_nth_error in Hj as [j' Hj'].
      assert (Hin : In (unlocated ip)
                (map unlocated
                   (identifiersOfSpecifier ([K_body 0] ++ [K_specifiers (0 + j')]) sp'))).
      { rewrite (identifiersOfSpecifier_unlocated _
                   ([K_body 0] ++ [K_specifiers (0 + j)]) sp').
        now apply in_map. }
      apply in_map_iff in Hin as (ip' & Heq & Hip'). rewrite <- Heq.
      apply in_map. unfold flat_mapi. apply In_flat_mapi_from. now exists j', sp'.
  - destruct (shouldBeRemoved t c x); [ intros [] | intros [<- | []]; apply incl_refl ].
  - destruct (shouldBeRemoved t c f); [ intros [] | intros [<- | []]; apply incl_refl ].
  - intros [<- | []]; apply incl_refl.
  - intros [<- | []]; apply incl_refl.
Qed.

Lemma sweep_unlocated_incl (t : File) (c : list string) (l : list statement) :
  incl (flat_map unlocatedOfStatement (flat_map (sweepStatement t c) l))
       (flat_map unlocatedOfStatement l).
Proof.
  intros u Hu. apply in_flat_map in Hu as (s' & Hs' & Hu).
  apply in_flat_map in Hs' as (s & Hs & Hs').
  apply in_flat_map. exists s. split; [ exact Hs | ].
  now apply (sweepStatement_unlocated_incl t c s s' Hs').
Qed.

Lemma eliminate_unlocated_incl (c : list string) :
  forall (fuel : nat) (t : File),
    incl (flat_map unlocatedOfStatement (eliminate fuel t c))
         (flat_map unlocatedOfStatement t).
Proof.
  induction fuel as [ | fuel IH]; intros t; simpl; [ apply incl_refl | ].
  destruct (Nat.eqb _ _).
  - apply sweep_unlocated_incl.
  - eapply incl_tran; [ apply IH | apply sweep_unlocated_incl ].
Qed.

(** The bindings after a sweep: those the sweep does not remove. *)
Lemma sweep_bindings (t : File) (c : list string) (l : list statement) :
  programBindings (flat_map (sweepStatement t c) l)
  = filter (fun kv => negb (shouldBeRemoved t c (fst kv))) (programBindings l).
Proof.
  unfold programBindings.
  induction l as [ | s l IH]; simpl; [ reflexivity | ].
  rewrite flat_map_app, filter_app, IH. f_equal.
  destruct s as [specs source | x e | f ps b | e | e]; simpl.
  - assert (Hmap : map (specifierBinding source)
                     (filter (fun sp => negb (shouldBeRemoved t c (specifierLocal sp))) specs)
                   = filter (fun kv => negb (shouldBeRemoved t c (fst kv)))
                       (map (specifierBinding source) specs)).
    { induction specs as [ | sp specs IHs]; simpl; [ reflexivity | ].
      assert (Hfst : fst (specifierBinding source sp) = specifierLocal sp)
        by (destruct sp; reflexivity).
      rewrite Hfst.
      destruct (shouldBeRemoved t c (specifierLocal sp)); simpl; now rewrite IHs. }
    rewrite <- Hmap.
    destruct (filter _ specs) as [ | sp kept]; [ | simpl; now rewrite app_nil_r ].
    now destruct specs.
  - now destruct (shouldBeRemoved t c x).
  - now destruct (shouldBeRemoved t c f).
  - reflexivity.
  - reflexivity.
Qed.

Lemma removeMarked_bindings (marked : list NodePath) (ast : File) :
  programBindings (removeMarked marked ast) = programBindings ast.
Proof.
  unfold removeMarked, programBindings. generalize 0.
  induction ast as [ | s ast IH]; intros i; simpl; [ reflexivity | ].
  rewrite IH. f_equal.
  destruct s as [ | | | e | ]; try reflexivity.
  destruct e as [ | | | | props | f args | | ]; try reflexivity.
  destruct args as [ | arg rest]; [ reflexivity | ].
  destruct arg; reflexivity.
Qed.

Lemma NoDup_map_filter {A B} (f : A -> B) (g : A -> bool) (l : list A) :
  NoDup (map f l) -> NoDup (map f (filter g l)).
Proof.
  induction l as [ | x l IH]; simpl; intros H; [ constructor | ].
  inversion H as [ | ? ? Hnotin Hnd]; subst.
  destruct (g x); simpl; [ | now apply IH ].
  constructor; [ | now apply IH ].
  intros Hin. apply Hnotin.
  apply in_map_iff in Hin as (y & Hy & Hin). apply filter_In in Hin as [Hin _].
  apply in_map_iff. now exists y.
Qed.

Lemma eliminate_bindings (c : list string) :
  forall (fuel : nat) (t : File),
    incl (programBindings (eliminate fuel t c)) (programBindings t)
    /\ (uniqueBindings t -> uniqueBindings (eliminate fuel t c)).
Proof.
  assert (Hsweep : forall t,
            incl (programBindings (sweep t c)) (programBindings t)
            /\ (uniqueBindings t -> uniqueBindings (sweep t c))).
  { intros t. unfold sweep, uniqueBindings. rewrite sweep_bindings. split.
    - intros kv Hkv. now apply filter_In in Hkv as [Hkv _].
    - apply NoDup_map_filter. }
  induction fuel as [ | fuel IH]; intros t; simpl.
  - split; [ apply incl_refl | tauto ].
  - destruct (Nat.eqb _ _); [ apply Hsweep | ].
    destruct (Hsweep t) as [Hi Hu]. destruct (IH (sweep t c)) as [Hi' Hu'].
    split; [ eapply incl_tran; eassumption | auto ].
Qed.

Lemma getBinding_transfer (ast out : File) (sc : scope) (name : string) (b : Binding) :
  uniqueBindings ast ->
  incl (programBindings out) (programBindings ast) ->
  getBinding out sc name = Some b ->
  getBinding ast sc name = Some b.
Proof.
  intros Huniq Hincl.
  induction sc as [ | frame sc IH]; simpl.
  - intros H. apply lookup_In, Hincl in H. now apply lookup_NoDup.
  - destruct (mem name frame); [ tauto | exact IH ].
Qed.

(** The misuse guard still passes on a tree that has some of the identifiers
    and some of the bindings of a tree on which it passes. *)
Lemma guard_passes_on_part (ast out : File) :
  uniqueBindings ast ->
  incl (programBindings out) (programBindings ast) ->
  incl (flat_map unlocatedOfStatement out) (flat_map unlocatedOfStatement ast) ->
  assertDefineRouteOnlyAfterExportDefault ast = Ok tt ->
  assertDefineRouteOnlyAfterExportDefault out = Ok tt.
Proof.
  intros Huniq Hbind Hids Hguard.
  apply forEachIdentifier_all_ok. intros ip Hin.
  apply visitOnlyAfterExportDefault_ok. intros Hd.
  assert (Hu : In (unlocated ip) (map unlocated (identifiers ast))).
  { rewrite identifiers_unlocated. apply Hids.
    rewrite <- identifiers_unlocated. now apply in_map. }
  apply in_map_iff in Hu as (ip0 & Heq & Hin0).
  assert (Hd0 : isDefineRoutePath ast ip0 = true).
  { unfold isDefineRoutePath in *.
    apply isDefineRoute_spec in Hd as (name & [= Hname] & Hb).
    apply (@getBinding_transfer ast out _ _ _ Huniq Hbind) in Hb.
    apply isDefineRoute_spec. exists name.
    assert (Hn : ip_name ip0 = ip_name ip) by (injection Heq; auto).
    assert (Hs : ip_scope ip0 = ip_scope ip) by (injection Heq; auto).
    rewrite Hn, Hs. split; [ now f_equal | exact Hb ]. }
  pose proof (forEachIdentifier_ok _ _ Hguard ip0 Hin0) as Hv.
  pose proof (proj1 (visitOnlyAfterExportDefault_ok ast ip0) Hv Hd0) as Ha.
  unfold allowedPosition in *.
  assert (Hp : ip_parent ip0 = ip_parent ip) by (injection Heq; auto).
  assert (Hg : ip_grandparent ip0 = ip_grandparent ip) by (injection Heq; auto).
  now rewrite <- Hp, <- Hg.
Qed.

Lemma referenced_callee (t : File) (l : string) (args : list expr) :
  In (ExportDefaultDeclaration (CallExpression (Identifier l) args)) t ->
  referenced t l = true.
Proof.
  intros Hin. apply In_nth_error in Hin as [j Hj].
  unfold referenced. apply existsb_exists.
  exists (mkIdentifierPath l (([K_body (0 + j)] ++ [K_declaration]) ++ [K_callee])
            TCallExpression TExportDefaultDeclaration [] true).
  split.
  - unfold identifiers, flat_mapi. apply In_flat_mapi_from.
    eexists j, _. split; [ exact Hj | ]. simpl. now left.
  - unfold refersToProgram. simpl. apply String.eqb_refl.
Qed.

Lemma eliminate_keeps_callee_binding (c : list string) (l : string)
    (args : list expr) (b : Binding) :
  forall (fuel : nat) (t : File),
    In (ExportDefaultDeclaration (CallExpression (Identifier l) args)) t ->
    In (l, b) (programBindings t) ->
    In (l, b) (programBindings (eliminate fuel t c)).
Proof.
  assert (Hsweep : forall t,
            In (ExportDefaultDeclaration (CallExpression (Identifier l) args)) t ->
            In (l, b) (programBindings t) ->
            In (ExportDefaultDeclaration (CallExpression (Identifier l) args)) (sweep t c)
            /\ In (l, b) (programBindings (sweep t c))).
  { intros t Hexp Hb. split.
    - unfold sweep. apply in_flat_map.
      eexists. split; [ exact Hexp | now left ].
    - unfold sweep. rewrite sweep_bindings. apply filter_In. split; [ exact Hb | ].
      simpl. unfold shouldBeRemoved. rewrite (@referenced_callee t l args Hexp).
      now rewrite andb_false_r. }
  induction fuel as [ | fuel IH]; intros t Hexp Hb; simpl; [ exact Hb | ].
  destruct (Hsweep t Hexp Hb) as [Hexp' Hb'].
  destruct (Nat.eqb _ _); [ exact Hb' | now apply IH ].
Qed.

(** Every default export of the tree that the client transform produces is
    accepted by the matcher again. *)
Lemma transformed_routes_valid (ast : File) (marked : list NodePath)
    (fuel : nat) (c : list string) (route' : expr) :
  uniqueBindings ast ->
  markForRemoval ast = Ok marked ->
  In (ExportDefaultDeclaration route') (eliminate fuel (removeMarked marked ast) c) ->
  validRoute (eliminate fuel (removeMarked marked ast) c) route' = true.
Proof.
  intros Huniq Hmark Hout.
  pose proof (@eliminate_exports c route' fuel _ Hout) as Hrem.
  pose proof Hrem as Hrem0.
  unfold removeMarked in Hrem. apply removeMarkedFrom_In in Hrem as (j & s & Hj & Hs).
  simpl in Hs.
  destruct (@markForRemovalFrom_incl ast ast 0 [] marked Hmark) as [_ Hall].
  destruct s as [ | | | route | ]; try discriminate.
  destruct (Hall j route Hj) as (a & Ha & _).
  assert (Hvalid : validRoute ast route = true).
  { rewrite <- (analyzeRouteExport_ok_valid ast [K_body (0 + j)] route). now rewrite Ha. }
  assert (Hacc : forall path i props,
            forallb acceptable props = true ->
            forallb acceptable (removePropertiesFrom marked path i props) = true).
  { intros path i props H. rewrite forallb_forall in *.
    intros p Hp. apply H. now apply removePropertiesFrom_incl in Hp. }
  destruct route as [ | | | | props | f args | | ]; try discriminate.
  - simpl in Hs. injection Hs as ->. simpl. now apply Hacc.
  - destruct args as [ | arg [ | arg' rest]]; try discriminate;
      destruct arg; try discriminate.
    simpl in Hvalid. apply andb_true_iff in Hvalid as [Hd Hprops].
    simpl in Hs. injection Hs as ->. simpl.
    apply andb_true_iff. split; [ | now apply Hacc ].
    apply isDefineRoute_spec in Hd as (l & -> & Hb).
    apply isDefineRoute_spec. exists l. split; [ reflexivity | ].
    simpl in Hb |- *. apply lookup_In in Hb.
    destruct (eliminate_bindings c fuel (removeMarked marked ast)) as [_ Hu].
    apply lookup_NoDup.
    + apply Hu. unfold uniqueBindings. now rewrite removeMarked_bindings.
    + eapply eliminate_keeps_callee_binding; [ exact Hrem0 | ].
      now rewrite removeMarked_bindings.
Qed.

Lemma markForRemoval_ok_of_valid (ast : File) :
  (forall route, In (ExportDefaultDeclaration route) ast -> validRoute ast route = true) ->
  exists marked, markForRemoval ast = Ok marked.
Proof.
  intros Hvalid. apply (fieldsFrom_ok ast ast 0 []) in Hvalid.
  unfold markForRemoval.
  destruct (markForRemovalFrom ast 0 ast []) as [marked | e] eqn:Hm; [ now exists marked | ].
  apply (loops_fail_alike ast ast e 0 [] []) in Hm. rewrite Hm in Hvalid. discriminate.
Qed.

(** X16: running the client transform on its own output changes nothing,
    provided no name is declared twice in the program scope and no
    server-only name occurs twice among the keys of a default export: the
    second run hands the generator the tree it parsed. *)
Theorem transform_twice_same_when_unique :
  forall (ast out : File),
    uniqueBindings ast ->
    (forall route, In (ExportDefaultDeclaration route) ast ->
                   NoDup (filter serverOnly (keyNames (routeProperties route)))) ->
    transformAst ast = Ok out ->
    transformAst out = Ok out.
Proof.
  intros ast out Huniq Hnd Hrun.
  pose proof (@transformAst_strips_unique ast out Hrun Hnd) as Hstripped.
  unfold transformAst in Hrun.
  destruct (assertDefineRouteOnlyAfterExportDefault ast) as [[] | e] eqn:Hguard;
    simpl in Hrun; [ | discriminate ].
  destruct (markForRemoval ast) as [marked | e] eqn:Hmark; simpl in Hrun; [ | discriminate ].
  injection Hrun as Hout.
  apply transformAst_noop.
  - unfold transformAst.
    assert (Hguard' : assertDefineRouteOnlyAfterExportDefault out = Ok tt).
    { apply (@guard_passes_on_part ast out Huniq); [ | | exact Hguard ]; subst out.
      - unfold deadCodeElimination.
        destruct (eliminate_bindings (findReferencedIdentifiers ast)
                    (S (bindingCount (removeMarked marked ast)))
                    (removeMarked marked ast)) as [Hi _].
        now rewrite removeMarked_bindings in Hi.
      - unfold deadCodeElimination.
        eapply incl_tran; [ apply eliminate_unlocated_incl | ].
        apply removeMarked_unlocated_incl. }
    rewrite Hguard'. simpl.
    destruct (markForRemoval_ok_of_valid out) as [marked' Hmark'].
    { intros route' Hroute'. subst out. unfold deadCodeElimination in *.
      now apply transformed_routes_valid. }
    rewrite Hmark'. simpl. eexists. reflexivity.
  - intros route' k Hroute' Hk. exact (Hstripped route' k Hroute' Hk).
Qed.

Lemma transform_twice_same_when_unique_witness :
  transformAst componentOnly = Ok componentOnly.
Proof.
  apply (@transform_twice_same_when_unique loaderAndComponent componentOnly).
  - unfold uniqueBindings; simpl.
    constructor; [ simpl; intros [H | []]; discriminate | ].
    constructor; [ simpl; tauto | constructor ].
  - intros route [H | [H | [H | []]]]; try discriminate.
    injection H as <-. simpl.
    constructor; [ simpl; tauto | constructor ].
  - reflexivity.
Defined.
